(** * Engine resolution (src/core/engine-resolver.ts)

    A shallow embedding of [EngineResolver]: the project association reader,
    discovery with deduplication and version loading, the version comparator
    and the match-or-fallback selection of [resolveEngine].

    Conventions of the embedding.
    - JavaScript values that reach the resolver through [JSON.parse] are
      values of [jsval]; numbers are the integers ([Z]), which is what
      version descriptors and changelists hold.
    - Strings are byte strings; every character the code tests (the marker
      [UE_], digits, [.] and [_]) is ASCII.
    - The host (file system, [path], [JSON.parse], platform, probe output) is
      a record [Host] passed explicitly; nothing is read from ambient state.
    - A JavaScript exception is the [Throw] case of [result]; a [try]/[catch]
      is a [match] on it. *)

From Stdlib Require Import ZArith Ascii String List Lia.
From stdpp Require Import base option list sorting gmap strings pretty.

Local Open Scope Z_scope.

(** ** Exceptions *)

Inductive result (A : Type) : Type :=
  | Ok (a : A)
  | Throw (msg : string).
Arguments Ok {A} a.
Arguments Throw {A} msg.

(** Sequencing: the first [Throw] ends the block. *)
Definition bind {A B : Type} (m : result A) (k : A -> result B) : result B :=
  match m with
  | Ok a => k a
  | Throw msg => Throw msg
  end.

Notation "'let*' x ':=' m 'in' k" := (bind m (fun x => k))
  (at level 10, x name, m at level 100, k at level 200).

(** ** JavaScript values *)

Set Warnings "-register-all".

Module JS.

(** What [JSON.parse] can return, plus [undefined] (a missing property). *)
Inductive jsval : Type :=
  | JUndefined
  | JNull
  | JBool (b : bool)
  | JNum (n : Z)
  | JStr (s : string)
  | JArr (items : list jsval)
  | JObj (fields : list (string * jsval)).

(** ToBoolean. *)
Definition truthy (v : jsval) : bool :=
  match v with
  | JUndefined | JNull => false
  | JBool b => b
  | JNum n => negb (n =? 0)
  | JStr s => negb (String.eqb s EmptyString)
  | JArr _ | JObj _ => true
  end.

(** The parsed object has a property of its own named [k]. *)
Definition has_own (k : string) (fields : list (string * jsval)) : bool :=
  existsb (fun '(k', _) => String.eqb k' k) fields.

(** ToString, as a template literal applies it. A parsed object has no
    callable [toString] of its own: when it has a property of that name,
    the inherited method is hidden, [valueOf] yields no primitive either,
    and the conversion throws a TypeError; otherwise the inherited method
    answers. An array joins the texts of its elements, [null] counting as
    the empty string. A number is an integer that JavaScript holds exactly
    and prints in decimal. *)
Fixpoint toString (v : jsval) : result string :=
  match v with
  | JUndefined => Ok "undefined"
  | JNull => Ok "null"
  | JBool true => Ok "true"
  | JBool false => Ok "false"
  | JNum n => Ok (pretty n)
  | JStr s => Ok s
  | JArr items =>
      (fix join (l : list jsval) : result string :=
         match l with
         | [] => Ok EmptyString
         | x :: r =>
             let* sx := match x with
                        | JUndefined | JNull => Ok EmptyString
                        | _ => toString x
                        end in
             match r with
             | [] => Ok sx
             | _ :: _ => let* sr := join r in Ok (sx +:+ "," +:+ sr)
             end
         end) items
  | JObj fields =>
      if has_own "toString" fields
      then Throw "Cannot convert object to primitive value"
      else Ok "[object Object]"
  end.

(** Lookup of an own property of a parsed object; [JSON.parse] keeps the
    last binding of a repeated key. *)
Fixpoint lookup_field (k : string) (fields : list (string * jsval)) : jsval :=
  match fields with
  | [] => JUndefined
  | (k', v) :: rest =>
      match lookup_field k rest with
      | JUndefined => if String.eqb k' k then v else JUndefined
      | later => later
      end
  end.

(** [v.k] for a key [k] that is not a built-in property name: reading a
    property of [null] or [undefined] throws a TypeError. *)
Definition get_prop (v : jsval) (k : string) : result jsval :=
  match v with
  | JNull =>
      Throw ("Cannot read properties of null (reading '" +:+ k +:+ "')")
  | JUndefined =>
      Throw ("Cannot read properties of undefined (reading '" +:+ k +:+ "')")
  | JObj fields => Ok (lookup_field k fields)
  | _ => Ok JUndefined
  end.

(** [a || b] on strings. *)
Definition str_or (a b : string) : string :=
  if String.eqb a EmptyString then b else a.

(** [s.endsWith(suffix)]. *)
Definition endsWith (s suffix : string) : bool :=
  let n := String.length s in
  let m := String.length suffix in
  (m <=? n)%nat && String.eqb (String.substring (n - m) m s) suffix.

End JS.
Import JS.

(** ** Strings: the path pattern and [parseInt] *)

Module PathPattern.

Definition is_digit (c : ascii) : bool :=
  let n := nat_of_ascii c in (48 <=? n)%nat && (n <=? 57)%nat.

(** The class [[._]]. *)
Definition is_sep (c : ascii) : bool :=
  Ascii.eqb c "." || Ascii.eqb c "_".

(** The rest of the capture group once its first digit is read: a digit extends the
    match, a separator extends it only when a digit follows. Nothing comes
    after the group in the pattern, so the greedy match is the final one. *)
Fixpoint digits_tail (s : string) : string :=
  match s with
  | EmptyString => EmptyString
  | String c r =>
      if is_digit c then String c (digits_tail r)
      else if is_sep c then
        match r with
        | String d _ => if is_digit d then String c (digits_tail r) else EmptyString
        | EmptyString => EmptyString
        end
      else EmptyString
  end.

(** The capture group, digits then any number of separator-digits runs, at
    the start of [s]. *)
Definition capture_group (s : string) : option string :=
  match s with
  | String c r => if is_digit c then Some (String c (digits_tail r)) else None
  | EmptyString => None
  end.

(** The pattern of [loadEngineVersionInfo], [UE_], a marker [5] or [4], an
    optional separator and the capture group, anchored at the start of [s];
    the result is group 1. With the flag [i] the letters match in either case.
    When a separator follows the marker, [[._]?] takes it; giving it back
    would leave the separator where a digit is required, so that
    alternative never succeeds. *)
Definition match_here (s : string) : option string :=
  match s with
  | String u (String e (String us (String m rest))) =>
      if (Ascii.eqb u "U" || Ascii.eqb u "u")
         && (Ascii.eqb e "E" || Ascii.eqb e "e")
         && Ascii.eqb us "_"
         && (Ascii.eqb m "5" || Ascii.eqb m "4")
      then
        match rest with
        | String c r => if is_sep c then capture_group r else capture_group rest
        | EmptyString => None
        end
      else None
  | _ => None
  end.

(** [path.match(/UE_.../i)]: the leftmost position where the pattern
    matches; [None] is JavaScript's [null]. *)
Fixpoint path_match (s : string) : option string :=
  match match_here s with
  | Some g => Some g
  | None =>
      match s with
      | String _ r => path_match r
      | EmptyString => None
      end
  end.

(** [s.replace('_', '.')]: a string pattern replaces the first occurrence
    only. *)
Fixpoint replace_first_underscore (s : string) : string :=
  match s with
  | EmptyString => EmptyString
  | String c r =>
      if Ascii.eqb c "_" then String "." r
      else String c (replace_first_underscore r)
  end.

(** [s.split('.')]. *)
Fixpoint split_dot (s : string) : list string :=
  match s with
  | EmptyString => [EmptyString]
  | String c r =>
      if Ascii.eqb c "." then EmptyString :: split_dot r
      else
        match split_dot r with
        | seg :: more => String c seg :: more
        | [] => [String c EmptyString]
        end
  end.

Definition is_space (c : ascii) : bool :=
  let n := nat_of_ascii c in ((9 <=? n)%nat && (n <=? 13)%nat) || (n =? 32)%nat.

Fixpoint skip_spaces (s : string) : string :=
  match s with
  | String c r => if is_space c then skip_spaces r else s
  | EmptyString => EmptyString
  end.

(** Value of [c] as a digit of the given radix (10 or 16). *)
Definition digit_value (radix : Z) (c : ascii) : option Z :=
  let n := Z.of_nat (nat_of_ascii c) in
  if (48 <=? n) && (n <=? 57) then Some (n - 48)
  else if radix =? 16 then
    if (97 <=? n) && (n <=? 102) then Some (n - 87)
    else if (65 <=? n) && (n <=? 70) then Some (n - 55)
    else None
  else None.

(** The longest prefix of digits, read as a number; [None] when there is
    no digit at all. *)
Fixpoint leading_number (radix : Z) (acc : option Z) (s : string) : option Z :=
  match s with
  | EmptyString => acc
  | String c r =>
      match digit_value radix c with
      | Some d => leading_number radix (Some (radix * default 0 acc + d)) r
      | None => acc
      end
  end.

(** [parseInt(x)] without a radix; [None] is [NaN]. An absent array element
    ([undefined]) is converted to the string "undefined" and gives [NaN]. *)
Definition parseInt (x : option string) : option Z :=
  match x with
  | None => None
  | Some s =>
      let t := skip_spaces s in
      let '(neg, t) :=
        match t with
        | String c r =>
            if Ascii.eqb c "-" then (true, r)
            else if Ascii.eqb c "+" then (false, r)
            else (false, t)
        | EmptyString => (false, t)
        end in
      let magnitude :=
        match t with
        | String z (String x r) =>
            if Ascii.eqb z "0" && (Ascii.eqb x "x" || Ascii.eqb x "X")
            then leading_number 16 None r
            else leading_number 10 None t
        | _ => leading_number 10 None t
        end in
      (fun m => if neg then - m else m) <$> magnitude
  end.

(** [n || d] on numbers: [NaN] and [0] are falsy. *)
Definition num_or (n : option Z) (d : Z) : Z :=
  match n with
  | Some 0 | None => d
  | Some k => k
  end.

End PathPattern.

(** ** Data model (types/engine) *)

(** [EngineVersionInfo]: the fields [loadEngineVersionInfo] writes. *)
Record EngineVersionInfo : Type := {
  MajorVersion : Z;
  MinorVersion : Z;
  PatchVersion : Z;
  Changelist : Z;
  CompatibleChangelist : Z;
  IsLicenseeVersion : Z;
  IsPromotedBuild : Z;
  BranchName : string;
  BuildId : string
}.

(** [EngineInstallation]. The launcher probe copies [InstallLocation] out of
    parsed JSON unchecked, so at run time [path] holds any JavaScript value;
    the other fields are the strings the probes build. *)
Record EngineInstallation : Type := {
  path : jsval;
  associationId : string;
  displayName : string;
  installedDate : option string;
  version : option EngineVersionInfo
}.

(** [EngineAssociation]: both fields receive the raw value of the
    descriptor's [EngineAssociation] property. *)
Record EngineAssociation : Type := {
  guid : jsval;
  name : jsval
}.

(** [EngineDetectionResult]; an absent property is [None]. *)
Record EngineDetectionResult : Type := {
  engine : option EngineInstallation;
  uprojectEngine : option EngineAssociation;
  warnings : list string;
  error : option string
}.

(** ** The host *)

(** Everything [EngineResolver] asks of its environment. The three probes
    catch their own failures and hand back a list, so the host supplies
    their output; [JSON_parse_version] is [JSON.parse] at the declared type
    [EngineVersionInfo] of a version descriptor. *)
Record Host : Type := {
  path_normalize : string -> string;
  path_join : list string -> string;
  path_type_error : jsval -> string;
  toLowerCase : string -> string;
  fs_pathExists : string -> bool;
  fs_stat_isDirectory : string -> result bool;
  fs_readdir : string -> result (list string);
  fs_readFile : string -> result string;
  JSON_parse : string -> result jsval;
  JSON_parse_version : string -> result EngineVersionInfo;
  Platform_isWindows : bool;
  getEnginesFromRegistry : list EngineInstallation;
  getEnginesFromLauncher : list EngineInstallation;
  getEngineFromEnvironment : option EngineInstallation
}.

(** [path.normalize(v)]: a TypeError unless [v] is a string. *)
Definition normalize (h : Host) (v : jsval) : result string :=
  match v with
  | JStr s => Ok (path_normalize h s)
  | _ => Throw (path_type_error h v)
  end.

(** [engine.associationId === guid]. *)
Definition strict_eq (s : string) (v : jsval) : bool :=
  match v with
  | JStr t => String.eqb s t
  | _ => false
  end.

(** ** getEngineAssociationFromProject *)

Definition uproject_ext : string := ".uproject".

(** Where the descriptor is: [inr] its path, [inl] the warning of the early
    [return] when the directory holds no descriptor. *)
Definition locate_uproject (h : Host) (projectPath : string)
  : result (string + string) :=
  let* isDir :=
    (if fs_pathExists h projectPath
     then fs_stat_isDirectory h projectPath else Ok false) in
  if isDir : bool then
    let* files := fs_readdir h projectPath in
    match filter (fun f => endsWith f uproject_ext = true) files with
    | [] => Ok (inl "No .uproject file found in project directory")
    | first :: _ => Ok (inr (path_join h [projectPath; first]))
    end
  else Ok (inr projectPath).

(** The body of the [try] block: [Ok] carries what a [return] gives back,
    [Throw] what reaches the [catch]. Every [return] of the block is taken
    with the local [warnings] array holding at most the one message pushed
    just before it. *)
Definition association_try (h : Host) (projectPath : string)
  : result (option EngineAssociation * list string) :=
  let* located := locate_uproject h projectPath in
  match located with
  | inl warning => Ok (None, [warning])
  | inr uprojectPath =>
      if negb (endsWith uprojectPath uproject_ext) then
        Ok (None, ["Project path is not a .uproject file"])
      else
        let* content := fs_readFile h uprojectPath in
        let* uproject := JSON_parse h content in
        let* field := get_prop uproject "EngineAssociation" in
        if negb (truthy field) then
          Ok (None, ["No EngineAssociation found in .uproject file"])
        else
          Ok (Some {| guid := field; name := field |}, [])
  end.

Definition getEngineAssociationFromProject (h : Host) (projectPath : string)
  : option EngineAssociation * list string :=
  match association_try h projectPath with
  | Ok r => r
  | Throw msg => (None, ["Failed to read project file: " +:+ msg])
  end.

(** ** removeDuplicateEngines *)

(** The [for] loop, with [seen] and [unique] as they stand before the
    remaining installations are visited. *)
Fixpoint dedup_loop (h : Host) (installations : list EngineInstallation)
    (seen : gset string) (unique : list EngineInstallation)
  : result (list EngineInstallation) :=
  match installations with
  | [] => Ok unique
  | installation :: rest =>
      let* normalized := normalize h (path installation) in
      let normalizedPath := toLowerCase h normalized in
      if decide (normalizedPath ∈ seen) then dedup_loop h rest seen unique
      else dedup_loop h rest ({[normalizedPath]} ∪ seen) (unique ++ [installation])
  end.

Definition removeDuplicateEngines (h : Host) (installations : list EngineInstallation)
  : result (list EngineInstallation) :=
  dedup_loop h installations ∅ [].

(** ** loadEngineVersionInfo *)

(** One round of the loop over [versionFilePaths]: the descriptor when the
    file exists, reads and parses; [None] when the loop moves on. *)
Definition read_version_file (h : Host) (versionFilePath : string)
  : option EngineVersionInfo :=
  if fs_pathExists h versionFilePath then
    match (let* content := fs_readFile h versionFilePath in
           JSON_parse_version h content) with
    | Ok versionInfo => Some versionInfo
    | Throw _ => None
    end
  else None.

(** The loop itself: the first descriptor that loads ends it. *)
Fixpoint first_version_file (h : Host) (versionFilePaths : list string)
  : option EngineVersionInfo :=
  match versionFilePaths with
  | [] => None
  | versionFilePath :: rest =>
      match read_version_file h versionFilePath with
      | Some versionInfo => Some versionInfo
      | None => first_version_file h rest
      end
  end.

Definition set_version (installation : EngineInstallation)
    (v : EngineVersionInfo) (display : string) : EngineInstallation :=
  {| path := path installation;
     associationId := associationId installation;
     displayName := display;
     installedDate := installedDate installation;
     version := Some v |}.

(** The version read off the path: [versionStr] and the record built from
    its segments. *)
Definition version_of_path (p : string) : option (string * EngineVersionInfo) :=
  match PathPattern.path_match p with
  | None => None
  | Some group =>
      let versionStr := PathPattern.replace_first_underscore group in
      let segments := PathPattern.split_dot versionStr in
      Some (versionStr,
            {| MajorVersion := PathPattern.num_or (PathPattern.parseInt (segments !! 0%nat)) 5;
               MinorVersion := PathPattern.num_or (PathPattern.parseInt (segments !! 1%nat)) 0;
               PatchVersion := PathPattern.num_or (PathPattern.parseInt (segments !! 2%nat)) 0;
               Changelist := 0;
               CompatibleChangelist := 0;
               IsLicenseeVersion := 0;
               IsPromotedBuild := 0;
               BranchName := EmptyString;
               BuildId := EmptyString |})
  end.

(** The installation after the call (the source updates it in place). A
    path that is not a string makes [path.join] throw inside the [try], and
    the installation is left as it was. *)
Definition loadEngineVersionInfo (h : Host) (installation : EngineInstallation)
  : EngineInstallation :=
  match path installation with
  | JStr p =>
      let versionFilePaths :=
        [ path_join h [p; "Engine"; "Binaries"; "Win64"; "UnrealEditor.version"];
          path_join h [p; "Engine"; "Build"; "Build.version"] ] in
      match first_version_file h versionFilePaths with
      | Some versionInfo =>
          set_version installation versionInfo
            ("UE " +:+ pretty (MajorVersion versionInfo) +:+ "."
                   +:+ pretty (MinorVersion versionInfo) +:+ "."
                   +:+ pretty (PatchVersion versionInfo))
      | None =>
          match version_of_path p with
          | Some (versionStr, v) => set_version installation v ("UE " +:+ versionStr)
          | None => installation
          end
      end
  | _ => installation
  end.

(** ** findEngineInstallations *)

(** The array [installations] once every probe has pushed its engines. *)
Definition probe_results (h : Host) : list EngineInstallation :=
  (if Platform_isWindows h
   then getEnginesFromRegistry h ++ getEnginesFromLauncher h else [])
  ++ match getEngineFromEnvironment h with
     | Some envEngine => [envEngine]
     | None => []
     end.

Definition findEngineInstallations (h : Host) : result (list EngineInstallation) :=
  let* uniqueInstallations := removeDuplicateEngines h (probe_results h) in
  Ok (loadEngineVersionInfo h <$> uniqueInstallations).

(** ** compareVersions *)

Definition compareVersions (a b : option EngineVersionInfo) : Z :=
  match a, b with
  | None, None => 0
  | None, Some _ => -1
  | Some _, None => 1
  | Some a, Some b =>
      if negb (MajorVersion a =? MajorVersion b) then MajorVersion a - MajorVersion b
      else if negb (MinorVersion a =? MinorVersion b) then MinorVersion a - MinorVersion b
      else if negb (PatchVersion a =? PatchVersion b) then PatchVersion a - PatchVersion b
      else Changelist a - Changelist b
  end.

(** ** Array.prototype.sort *)

(** The sort is stable (ECMAScript 2019). [insert_sorted] puts [x] in front
    of a sorted array whose elements all came after [x]: [x] passes exactly
    the elements the comparator puts strictly before it. *)
Fixpoint insert_sorted {A : Type} (cmp : A -> A -> Z) (x : A) (l : list A) : list A :=
  match l with
  | [] => [x]
  | y :: r => if cmp x y <=? 0 then x :: l else y :: insert_sorted cmp x r
  end.

Definition Array_sort {A : Type} (cmp : A -> A -> Z) (l : list A) : list A :=
  foldr (insert_sorted cmp) [] l.

(** The comparator of the fallback: newest first. *)
Definition newest_first (a b : EngineInstallation) : Z :=
  compareVersions (version b) (version a).

(** ** resolveEngine *)

(** The template literal of the warning; it throws when the guid cannot
    be converted to a string. *)
Definition not_found_warning (g : jsval) : result string :=
  let* text := toString g in
  Ok ("Engine with association ID " +:+ text +:+ " not found in installed engines").

Definition fallback_warning (e : EngineInstallation) : string :=
  "Using engine " +:+ str_or (displayName e) (associationId e)
    +:+ " (not associated with project)".

(** The block under [if (projectPath)]: the association kept and the
    warnings pushed; an absent or empty path skips it. *)
Definition project_association (h : Host) (projectPath : option string)
  : option EngineAssociation * list string :=
  match projectPath with
  | Some p =>
      if negb (String.eqb p EmptyString)
      then getEngineAssociationFromProject h p
      else (None, [])
  | None => (None, [])
  end.

(** The [try] block. The second component is the array [warnings], declared
    outside the block, as it stands when the block is left, by [return] or
    by an exception. *)
Definition resolve_try (h : Host) (projectPath : option string)
  : result EngineDetectionResult * list string :=
  let '(uprojectEngine, warnings) := project_association h projectPath in
  match findEngineInstallations h with
  | Throw msg => (Throw msg, warnings)
  | Ok engineInstallations =>
      let nonEmpty := (0 <? length engineInstallations)%nat in
      let matching : result (option EngineInstallation * list string) :=
        match uprojectEngine with
        | Some association =>
            if nonEmpty then
              let found :=
                find (fun e => strict_eq (associationId e) (guid association))
                     engineInstallations in
              if negb (bool_decide (is_Some found)) && truthy (guid association)
              then
                let* warning := not_found_warning (guid association) in
                Ok (found, warnings ++ [warning])
              else Ok (found, warnings)
            else Ok (None, warnings)
        | None => Ok (None, warnings)
        end in
      match matching with
      | Throw msg => (Throw msg, warnings)
      | Ok (matchedEngine, warnings) =>
          match matchedEngine with
          | None =>
              if nonEmpty then
                match Array_sort newest_first engineInstallations with
                | first :: _ =>
                    let warnings := warnings ++ [fallback_warning first] in
                    (Ok {| engine := Some first; uprojectEngine := uprojectEngine;
                           warnings := warnings; error := None |}, warnings)
                | [] =>
                    (Throw "Cannot read properties of undefined (reading 'displayName')",
                     warnings)
                end
              else
                (Ok {| engine := None; uprojectEngine := uprojectEngine;
                       warnings := warnings; error := None |}, warnings)
          | Some _ =>
              (Ok {| engine := matchedEngine; uprojectEngine := uprojectEngine;
                     warnings := warnings; error := None |}, warnings)
          end
      end
  end.

(** The [catch]: the message of the exception and the warnings so far. *)
Definition resolveEngine (h : Host) (projectPath : option string)
  : EngineDetectionResult :=
  match resolve_try h projectPath with
  | (Ok r, _) => r
  | (Throw msg, warnings) =>
      {| engine := None; uprojectEngine := None;
         warnings := warnings; error := Some msg |}
  end.

(** * Vocabulary of the statements *)

(** [x] may stand before [y] under the comparator [cmp]. *)
Definition before {A : Type} (cmp : A -> A -> Z) (x y : A) : Prop := cmp x y <= 0.

(** The first of the differences that is not zero; [0] when all are. *)
Fixpoint first_difference (ds : list Z) : Z :=
  match ds with
  | [] => 0
  | d :: rest => if d =? 0 then first_difference rest else d
  end.

Definition version_differences (a b : EngineVersionInfo) : list Z :=
  [ MajorVersion a - MajorVersion b;
    MinorVersion a - MinorVersion b;
    PatchVersion a - PatchVersion b;
    Changelist a - Changelist b ].

(** An installation without version metadata. *)
Definition versionless (e : EngineInstallation) : Prop := version e = None.

#[global] Instance versionless_dec e : Decision (versionless e).
Proof. unfold versionless. apply _. Defined.

(** The key [removeDuplicateEngines] compares, for an installation whose
    path is a string. *)
Definition normalizedPath (h : Host) (e : EngineInstallation) : string :=
  match path e with
  | JStr p => toLowerCase h (path_normalize h p)
  | _ => EmptyString
  end.

Definition string_path (e : EngineInstallation) : Prop :=
  exists p, path e = JStr p.

(** What it would mean for a call of the resolver to bypass discovery: the
    result is the same on any two hosts that differ in nothing but the
    output of the probes. *)
Definition same_but_probes (h h' : Host) : Prop :=
  path_normalize h = path_normalize h'
  /\ path_join h = path_join h'
  /\ path_type_error h = path_type_error h'
  /\ toLowerCase h = toLowerCase h'
  /\ fs_pathExists h = fs_pathExists h'
  /\ fs_stat_isDirectory h = fs_stat_isDirectory h'
  /\ fs_readdir h = fs_readdir h'
  /\ fs_readFile h = fs_readFile h'
  /\ JSON_parse h = JSON_parse h'
  /\ JSON_parse_version h = JSON_parse_version h'.

Definition bypasses_discovery (projectPath : option string) : Prop :=
  forall h h', same_but_probes h h' ->
    resolveEngine h projectPath = resolveEngine h' projectPath.

(** The two outcomes the data model calls the success signal. *)
Definition exactly_one_populated (r : EngineDetectionResult) : Prop :=
  (is_Some (engine r) /\ error r = None)
  \/ (engine r = None /\ is_Some (error r)).

(** ** Vocabulary of the path heuristic *)

(** Where [c] stands in [s], counting from zero. *)
Fixpoint position (c : ascii) (s : string) : option nat :=
  match s with
  | EmptyString => None
  | String d r => if Ascii.eqb c d then Some 0%nat else S <$> position c r
  end.

(** The value of a decimal digit: its place among the ten. *)
Definition digit_of (c : ascii) : option Z :=
  Z.of_nat <$> position c "0123456789".

(** The number written by the digits [s], after those that gave [acc]. *)
Fixpoint decimal_from (acc : Z) (s : string) : option Z :=
  match s with
  | EmptyString => Some acc
  | String c r =>
      match digit_of c with
      | Some d => decimal_from (10 * acc + d) r
      | None => None
      end
  end.

(** The number a run of decimal digits writes; [None] for the empty string
    and for a string that holds anything but digits. *)
Definition decimal (s : string) : option Z :=
  match s with
  | EmptyString => None
  | String _ _ => decimal_from 0 s
  end.

Definition separator (c : ascii) : Prop := c = "."%char \/ c = "_"%char.

(** The text of the runs that follow the first: each a separator and its
    digits. *)
Fixpoint runs_text (more : list (ascii * string)) : string :=
  match more with
  | [] => EmptyString
  | (sep, run) :: rest => String sep (run +:+ runs_text rest)
  end.

(** A version token: a run of digits, then any number of runs each led by
    a separator. *)
Definition token_text (first : string) (more : list (ascii * string)) : string :=
  first +:+ runs_text more.

Definition well_formed (first : string) (more : list (ascii * string)) : Prop :=
  is_Some (decimal first)
  /\ Forall (fun '(sep, run) => separator sep /\ is_Some (decimal run)) more.

(** What may follow a token in a path without belonging to it: nothing, or
    a character that is no digit and, if a separator, has no digit behind
    it. *)
Definition token_stops (rest : string) : Prop :=
  match rest with
  | EmptyString => True
  | String c r =>
      digit_of c = None
      /\ (separator c ->
          match r with
          | String d _ => digit_of d = None
          | EmptyString => True
          end)
  end.

(** The marker in front of a token, [UE_5] or [UE_4] in either case of the
    letters, and the separator that may follow it. *)
Definition marker_text (u e m : ascii) : string :=
  String u (String e (String "_" (String m EmptyString))).

Definition marker (u e m : ascii) : Prop :=
  (u = "U" \/ u = "u")%char /\ (e = "E" \/ e = "e")%char /\ (m = "5" \/ m = "4")%char.

Definition lead_text (lead : option ascii) : string :=
  match lead with
  | Some c => String c EmptyString
  | None => EmptyString
  end.

Fixpoint occurs_in (c : ascii) (s : string) : Prop :=
  match s with
  | EmptyString => False
  | String d r => c = d \/ occurs_in c r
  end.

(** The path holds a marker with a digit behind it, directly or after one
    separator. *)
Definition pattern_occurs (p : string) : Prop :=
  exists pre u e m lead d rest,
    p = pre +:+ marker_text u e m +:+ lead_text lead +:+ String d rest
    /\ marker u e m
    /\ (forall c, lead = Some c -> separator c)
    /\ is_Some (digit_of d).

(** The separators once the first underscore among them is a dot. *)
Fixpoint dot_first_underscore (more : list (ascii * string))
  : list (ascii * string) :=
  match more with
  | [] => []
  | (sep, run) :: rest =>
      if Ascii.eqb sep "_" then ("."%char, run) :: rest
      else (sep, run) :: dot_first_underscore rest
  end.

(** The runs that open a piece of the token when it is cut at its dots:
    the first run and every run behind a dot. *)
Fixpoint later_heads (more : list (ascii * string)) : list string :=
  match more with
  | [] => []
  | (sep, run) :: rest =>
      if Ascii.eqb sep "." then run :: later_heads rest else later_heads rest
  end.

Definition segment_heads (first : string) (more : list (ascii * string))
  : list string :=
  first :: later_heads more.

(** The number stored for a piece: the number its first run writes, or the
    default [d] when the piece is missing or the number is zero. *)
Definition stored (head : option string) (d : Z) : Z :=
  match head ≫= decimal with
  | Some k => if decide (k = 0) then d else k
  | None => d
  end.

(** The rule as the claim words it: the default only for a piece that
    writes no number. *)
Definition defaults_when_unparsable (segment : string) (d value : Z) : Prop :=
  match decimal segment with
  | Some k => value = k
  | None => value = d
  end.

(** A string of digits only. *)
Fixpoint digits_only (s : string) : Prop :=
  match s with
  | EmptyString => True
  | String c r => is_Some (digit_of c) /\ digits_only r
  end.

(** A piece [seg] of a token cut at its dots, and the run [head] that opens
    it: behind the run come only runs led by underscores. *)
Definition opens (seg head : string) : Prop :=
  exists tail,
    seg = head +:+ tail
    /\ ~ occurs_in "." tail
    /\ (tail = EmptyString \/ exists r, tail = String "_" r).

(** ** Sample hosts *)

Module Sample.

Definition lower_ascii (c : ascii) : ascii :=
  let n := nat_of_ascii c in
  if (65 <=? n)%nat && (n <=? 90)%nat then ascii_of_nat (n + 32) else c.

Fixpoint lower (s : string) : string :=
  match s with
  | EmptyString => EmptyString
  | String c r => String (lower_ascii c) (lower r)
  end.

Fixpoint assoc {V : Type} (k : string) (l : list (string * V)) : option V :=
  match l with
  | [] => None
  | (k', v) :: rest => if String.eqb k' k then Some v else assoc k rest
  end.

(** The text of a value in an error message. *)
Definition inspect (v : jsval) : string :=
  match toString v with
  | Ok text => text
  | Throw _ => "an object"
  end.

Definition project_file : string := "Game.uproject".

(** A host whose only project descriptor is [Game.uproject], parsed as
    [descriptor]; [versions] lists the version descriptor files that exist
    and what they parse to; paths are kept as they are written and joined
    with [/]. *)
Definition host (descriptor : option jsval)
    (versions : list (string * EngineVersionInfo))
    (registry launcher : list EngineInstallation) : Host :=
  {| path_normalize := fun p => p;
     path_join := String.concat "/";
     path_type_error := fun v =>
       "The path argument must be of type string. Received " +:+ inspect v;
     toLowerCase := lower;
     fs_pathExists := fun f =>
       (String.eqb f project_file && bool_decide (is_Some descriptor))
       || bool_decide (is_Some (assoc f versions));
     fs_stat_isDirectory := fun _ => Ok false;
     fs_readdir := fun _ => Throw "ENOTDIR: not a directory";
     fs_readFile := fun f =>
       if (String.eqb f project_file && bool_decide (is_Some descriptor))
          || bool_decide (is_Some (assoc f versions))
       then Ok f else Throw "ENOENT: no such file or directory";
     JSON_parse := fun content =>
       match descriptor with
       | Some v => if String.eqb content project_file then Ok v
                   else Throw "Unexpected token"
       | None => Throw "Unexpected token"
       end;
     JSON_parse_version := fun content =>
       match assoc content versions with
       | Some v => Ok v
       | None => Throw "Unexpected token"
       end;
     Platform_isWindows := true;
     getEnginesFromRegistry := registry;
     getEnginesFromLauncher := launcher;
     getEngineFromEnvironment := None |}.

Definition descriptor_with (association : jsval) : jsval :=
  JObj [("FileVersion", JNum 3); ("EngineAssociation", association)].

Definition installation (p : jsval) (id display : string) : EngineInstallation :=
  {| path := p; associationId := id; displayName := display;
     installedDate := None; version := None |}.

Definition release (major minor patch : Z) : EngineVersionInfo :=
  {| MajorVersion := major; MinorVersion := minor; PatchVersion := patch;
     Changelist := 0; CompatibleChangelist := 0;
     IsLicenseeVersion := 0; IsPromotedBuild := 0;
     BranchName := "++UE5+Release"; BuildId := EmptyString |}.

Definition guid1 : EngineInstallation :=
  installation (JStr "C:/Epic/Source") "{GUID-1}" "UE Engine {GUID-1}".
Definition guid2 : EngineInstallation :=
  installation (JStr "D:/Engines/Custom") "{GUID-2}" "UE Engine {GUID-2}".
Definition launcher5 : EngineInstallation :=
  installation (JStr "c:/epic/source") "UE_5" "Unreal Engine 5".
Definition no_location : EngineInstallation :=
  installation JUndefined "UE_5" "Unreal Engine 5".

Definition build_version (p : string) : string :=
  p +:+ "/Engine/Build/Build.version".

End Sample.

(** Hosts of the scenarios. *)
Module Scenario.
Import Sample.

(** A descriptor whose [EngineAssociation] is the empty string. *)
Definition empty_association : Host :=
  host (Some (descriptor_with (JStr EmptyString))) [] [guid1] [].

(** Scenario B: the project names [{GUID-1}], which is installed. *)
Definition associated : Host :=
  host (Some (descriptor_with (JStr "{GUID-1}"))) [] [guid2; guid1] [].

(** Scenario C: the project names [{GUID-9}]; one engine, 5.1.0. *)
Definition unmatched : Host :=
  host (Some (descriptor_with (JStr "{GUID-9}")))
       [(build_version "C:/Epic/Source", release 5 1 0)] [guid1] [].

(** Scenario A: two engines, 5.3.0 and 5.4.1, no project. *)
Definition two_engines : Host :=
  host None
       [(build_version "C:/Epic/Source", release 5 3 0);
        (build_version "D:/Engines/Custom", release 5 4 1)]
       [guid1; guid2] [].

(** Nothing installed. *)
Definition nothing_installed : Host := host None [] [] [].

(** One engine in the registry, nothing else. *)
Definition one_engine : Host := host None [] [guid1] [].

(** A launcher entry without [InstallLocation]. *)
Definition broken_manifest : Host := host None [] [guid1] [no_location].

(** The project names [{GUID-9}]; two engines, 5.3.0 and 5.4.1. *)
Definition unmatched_pair : Host :=
  host (Some (descriptor_with (JStr "{GUID-9}")))
       [(build_version "C:/Epic/Source", release 5 3 0);
        (build_version "D:/Engines/Custom", release 5 4 1)]
       [guid1; guid2] [].

(** A descriptor whose [EngineAssociation] is an object with a key
    [toString] of its own; one engine. *)
Definition unprintable_association : Host :=
  host (Some (descriptor_with (JObj [("toString", JNum 1)]))) [] [guid1] [].

(** Two registry entries under the same association id. *)
Definition twice_registered : Host :=
  host (Some (descriptor_with (JStr "{GUID-1}"))) []
       [guid2; guid1; installation (JStr "E:/Mirror") "{GUID-1}" "UE Engine {GUID-1}"] [].

End Scenario.


(** * Vocabulary of the further properties *)

(** Every character of [s] passes [f]. *)
Fixpoint string_forallb (f : ascii -> bool) (s : string) : bool :=
  match s with
  | EmptyString => true
  | String c r => f c && string_forallb f r
  end.

(** A host with a project directory [Project] that holds, in the order
    [readdir] lists them, [Content], [Game.uproject] and [Old.uproject];
    only [Game.uproject] can be read, and it names [{GUID-1}]. *)
Definition project_directory_host : Host :=
  {| path_normalize := fun p => p;
     path_join := String.concat "/";
     path_type_error := fun v =>
       "The path argument must be of type string. Received " +:+ Sample.inspect v;
     toLowerCase := Sample.lower;
     fs_pathExists := fun f =>
       String.eqb f "Project" || String.eqb f "Project/Game.uproject";
     fs_stat_isDirectory := fun f => Ok (String.eqb f "Project");
     fs_readdir := fun f =>
       if String.eqb f "Project"
       then Ok ["Content"; "Game.uproject"; "Old.uproject"]
       else Throw "ENOTDIR: not a directory";
     fs_readFile := fun f =>
       if String.eqb f "Project/Game.uproject" then Ok "descriptor"
       else Throw "ENOENT: no such file or directory";
     JSON_parse := fun content =>
       if String.eqb content "descriptor"
       then Ok (Sample.descriptor_with (JStr "{GUID-1}"))
       else Throw "Unexpected token";
     JSON_parse_version := fun _ => Throw "Unexpected token";
     Platform_isWindows := true;
     getEnginesFromRegistry := [Sample.guid1];
     getEnginesFromLauncher := [];
     getEngineFromEnvironment := None |}.

(** The characters of the capture group, and those of a segment once the
    string is split at the dots. *)
Definition group_char (c : ascii) : bool :=
  PathPattern.is_digit c || PathPattern.is_sep c.

Definition segment_char (c : ascii) : bool :=
  PathPattern.is_digit c || Ascii.eqb c "_".

(** * The probes *)

(** ** String methods of the probes

    A JavaScript string is held as its UTF-8 bytes. [trim] and the class
    [\s] take the white space and the line terminators of ECMAScript, eight
    of which UTF-8 writes in two or three bytes. *)

Module Text.

(** White space in one byte: TAB, LF, VT, FF, CR, SP. *)
Definition one_byte_space (c1 : ascii) : bool :=
  let n1 := nat_of_ascii c1 in
  ((9 <=? n1) && (n1 <=? 13) || (n1 =? 32))%nat.

(** White space in two bytes: U+00A0. *)
Definition two_byte_space (c1 c2 : ascii) : bool :=
  ((nat_of_ascii c1 =? 194) && (nat_of_ascii c2 =? 160))%nat.

(** White space in three bytes: U+1680; U+2000 to U+200A, U+2028, U+2029
    and U+202F; U+205F; U+3000; U+FEFF. *)
Definition three_byte_space (c1 c2 c3 : ascii) : bool :=
  let n1 := nat_of_ascii c1 in
  let n2 := nat_of_ascii c2 in
  let n3 := nat_of_ascii c3 in
  ((n1 =? 225) && (n2 =? 154) && (n3 =? 128)
   || (n1 =? 226) && (n2 =? 128)
      && ((128 <=? n3) && (n3 <=? 138)
          || (n3 =? 168) || (n3 =? 169) || (n3 =? 175))
   || (n1 =? 226) && (n2 =? 129) && (n3 =? 159)
   || (n1 =? 227) && (n2 =? 128) && (n3 =? 128)
   || (n1 =? 239) && (n2 =? 187) && (n3 =? 191))%nat.

(** The number of bytes of the white space character [s] starts with;
    [0] when it starts with none. *)
Definition white_space_length (s : string) : nat :=
  match s with
  | EmptyString => 0
  | String c1 r1 =>
      if one_byte_space c1 then 1
      else
        match r1 with
        | EmptyString => 0
        | String c2 r2 =>
            if two_byte_space c1 c2 then 2
            else
              match r2 with
              | EmptyString => 0
              | String c3 _ => if three_byte_space c1 c2 c3 then 3 else 0
              end
        end
  end.

(** [s] without the white space character it starts with, if any. *)
Definition after_white_space (s : string) : option string :=
  match white_space_length s, s with
  | 1%nat, String _ r => Some r
  | 2%nat, String _ (String _ r) => Some r
  | 3%nat, String _ (String _ (String _ r)) => Some r
  | _, _ => None
  end.

(** [s.trimStart()]. *)
Fixpoint trimStart (s : string) : string :=
  match s with
  | EmptyString => EmptyString
  | String _ r1 =>
      match white_space_length s, r1 with
      | 1%nat, _ => trimStart r1
      | 2%nat, String _ r2 => trimStart r2
      | 3%nat, String _ (String _ r3) => trimStart r3
      | _, _ => s
      end
  end.

(** [s] is white space from end to end. *)
Fixpoint all_white_space (s : string) : bool :=
  match s with
  | EmptyString => true
  | String _ r1 =>
      match white_space_length s, r1 with
      | 1%nat, _ => all_white_space r1
      | 2%nat, String _ r2 => all_white_space r2
      | 3%nat, String _ (String _ r3) => all_white_space r3
      | _, _ => false
      end
  end.

(** [s.trimEnd()]: cut where the rest is white space from there on. *)
Fixpoint trimEnd (s : string) : string :=
  match s with
  | EmptyString => EmptyString
  | String c r => if all_white_space s then EmptyString else String c (trimEnd r)
  end.

(** [s.trim()]. *)
Definition trim (s : string) : string := trimEnd (trimStart s).

(** [s] holds a line terminator, one of LF, CR, U+2028 and U+2029: the
    characters the pattern [.] does not take. *)
Fixpoint has_line_terminator (s : string) : bool :=
  match s with
  | EmptyString => false
  | String c1 r1 =>
      let n1 := nat_of_ascii c1 in
      ((n1 =? 10) || (n1 =? 13))%nat
      || match r1 with
         | String c2 (String c3 _) =>
             ((n1 =? 226) && (nat_of_ascii c2 =? 128)
              && ((nat_of_ascii c3 =? 168) || (nat_of_ascii c3 =? 169)))%nat
         | _ => false
         end
      || has_line_terminator r1
  end.

(** [s.split(sep)] for a separator of one character. *)
Fixpoint split_on (sep : ascii) (s : string) : list string :=
  match s with
  | EmptyString => [EmptyString]
  | String c r =>
      if Ascii.eqb c sep then EmptyString :: split_on sep r
      else
        match split_on sep r with
        | seg :: more => String c seg :: more
        | [] => [String c EmptyString]
        end
  end.

(** The longest prefix of [s] without the character [stop], and the rest. *)
Fixpoint span_until (stop : ascii) (s : string) : string * string :=
  match s with
  | EmptyString => (EmptyString, EmptyString)
  | String c r =>
      if Ascii.eqb c stop then (EmptyString, s)
      else let '(taken, rest) := span_until stop r in (String c taken, rest)
  end.

(** [s] without the prefix [p], when it starts with it. *)
Fixpoint strip_prefix (p s : string) : option string :=
  match p, s with
  | EmptyString, _ => Some s
  | String a p', String b s' => if Ascii.eqb a b then strip_prefix p' s' else None
  | String _ _, EmptyString => None
  end.

End Text.

(** ** The registry probe *)

Module RegistryOutput.
Import Text.

(** [(.+)$] at [s]: the rest of the input, which has to be non-empty and
    free of line terminators. *)
Definition rest_of_line (s : string) : option string :=
  match s with
  | EmptyString => None
  | String _ _ => if has_line_terminator s then None else Some s
  end.

(** [\s*(.+)$] once [\s+] has taken its first character: the search
    prefers to give [\s+] every white space character there is, and gives
    them back one at a time while the rest does not match. *)
Fixpoint value_after_space (s : string) : option string :=
  match s with
  | EmptyString => None
  | String _ r1 =>
      let longer :=
        match white_space_length s, r1 with
        | 1%nat, _ => value_after_space r1
        | 2%nat, String _ r2 => value_after_space r2
        | 3%nat, String _ (String _ r3) => value_after_space r3
        | _, _ => None
        end in
      match longer with
      | Some v => Some v
      | None => rest_of_line s
      end
  end.

(** [\s+(.+)$] at [s]; the result is the group. *)
Definition value_match (s : string) : option string :=
  match after_white_space s with
  | Some r => value_after_space r
  | None => None
  end.

(** [REG_SZ\s+(.+)$] at [s]. *)
Definition reg_sz_here (s : string) : option string :=
  match strip_prefix "REG_SZ" s with
  | Some r => value_match r
  | None => None
  end.

(** [{([^}]+)}] at [s]: the group and what follows the closing brace. The
    class takes every character up to the first closing brace; taking
    fewer leaves a character that is not a brace where one is required. *)
Definition guid_here (s : string) : option (string * string) :=
  match s with
  | String c r =>
      if Ascii.eqb c "{" then
        match span_until "}" r with
        | (String g0 g, String _ rest) => Some (String g0 g, rest)
        | _ => None
        end
      else None
  | EmptyString => None
  end.

(** The whole pattern of the first attempt, a guid, [\s+], and the
    [REG_SZ] part, at [s]; the result is groups 1 and 2. Only the longest
    run of white space can be followed by the [R]. *)
Definition full_here (s : string) : option (string * string) :=
  match guid_here s with
  | Some (g, rest) =>
      match after_white_space rest with
      | Some _ =>
          match reg_sz_here (trimStart rest) with
          | Some v => Some (g, v)
          | None => None
          end
      | None => None
      end
  | None => None
  end.

(** [s.match(...)] for a pattern without anchor at its start: the
    leftmost position where [here] matches. *)
Fixpoint leftmost {R : Type} (here : string -> option R) (s : string) : option R :=
  match here s with
  | Some r => Some r
  | None =>
      match s with
      | String _ r => leftmost here r
      | EmptyString => None
      end
  end.

Definition registry_installation (guid enginePath : string) : EngineInstallation :=
  {| path := JStr enginePath;
     associationId := guid;
     displayName := "UE Engine " +:+ guid;
     installedDate := None;
     version := None |}.

(** One round of the loop over the lines: what it pushes, if anything. *)
Definition parse_line (line : string) : option EngineInstallation :=
  let trimmed := trim line in
  match leftmost full_here trimmed with
  | Some (g, v) =>
      Some (registry_installation ("{" +:+ g +:+ "}") (trim v))
  | None =>
      match guid_here trimmed with
      | Some (g, _) =>
          match leftmost reg_sz_here trimmed with
          | Some v => Some (registry_installation ("{" +:+ g +:+ "}") (trim v))
          | None => None
          end
      | None => None
      end
  end.

End RegistryOutput.

(** ** The launcher probe *)

Module LauncherManifest.

(** What the loop over [InstallationList] pushes. [InstallLocation],
    [DisplayName] and [InstallDate] come out of parsed JSON unchecked, so
    the three fields hold any JavaScript value; [version] is [undefined]. *)
Record Pushed : Type := {
  pushed_path : jsval;
  pushed_associationId : string;
  pushed_displayName : jsval;
  pushed_installedDate : jsval
}.

(** [installation.AppName === 'UE_4' || installation.AppName === 'UE_5']. *)
Definition is_engine_app (appName : jsval) : bool :=
  strict_eq "UE_4" appName || strict_eq "UE_5" appName.

(** [installation.AppName] as the association id: a string, the test
    having passed. *)
Definition app_tag (appName : jsval) : string :=
  match appName with
  | JStr tag => tag
  | _ => EmptyString
  end.

(** One round of the loop: what it pushes, if anything; [Throw] when a
    property is read off [null] or the [AppVersion] cannot be converted to
    a string. *)
Definition visit (installation : jsval) : result (option Pushed) :=
  let* appName := get_prop installation "AppName" in
  if is_engine_app appName then
    let* location := get_prop installation "InstallLocation" in
    let* display := get_prop installation "DisplayName" in
    let* display :=
      (if truthy display then Ok display
       else let* appVersion := get_prop installation "AppVersion" in
            let* text := toString appVersion in
            Ok (JStr ("UE " +:+ text))) in
    let* date := get_prop installation "InstallDate" in
    Ok (Some {| pushed_path := location;
                pushed_associationId := app_tag appName;
                pushed_displayName := display;
                pushed_installedDate := date |})
  else Ok None.

(** The loop: an exception leaves it, and what was pushed stays pushed. *)
Fixpoint installation_loop (items : list jsval) : list Pushed :=
  match items with
  | [] => []
  | installation :: rest =>
      match visit installation with
      | Ok (Some pushed) => pushed :: installation_loop rest
      | Ok None => installation_loop rest
      | Throw _ => []
      end
  end.

(** The body of the inner [try] once the manifest is parsed. *)
Definition installations_of (manifest : jsval) : list Pushed :=
  match get_prop manifest "InstallationList" with
  | Ok (JArr items) => installation_loop items
  | _ => []
  end.

(** One round of the loop over [manifestPaths]. *)
Definition read_manifest (h : Host) (manifestPath : string) : list Pushed :=
  if fs_pathExists h manifestPath then
    match (let* content := fs_readFile h manifestPath in JSON_parse h content) with
    | Ok manifest => installations_of manifest
    | Throw _ => []
    end
  else [].

(** A pushed installation at the declared type [EngineInstallation]: the
    display name a string, the install date a string or absent. *)
Definition typed (p : Pushed) : option EngineInstallation :=
  match pushed_displayName p, pushed_installedDate p with
  | JStr display, JUndefined =>
      Some {| path := pushed_path p; associationId := pushed_associationId p;
              displayName := display; installedDate := None; version := None |}
  | JStr display, JStr date =>
      Some {| path := pushed_path p; associationId := pushed_associationId p;
              displayName := display; installedDate := Some date; version := None |}
  | _, _ => None
  end.

End LauncherManifest.

Module Probe.

(** [process.env]. *)
Definition Env : Type := string -> option string.

(** [process.env.NAME || '']. *)
Definition env_or_empty (env : Env) (name : string) : string :=
  match env name with
  | Some v => v
  | None => EmptyString
  end.

(** [getEnginesFromLauncher]. *)
Definition getEnginesFromLauncher (h : Host) (env : Env)
  : list LauncherManifest.Pushed :=
  let manifestPaths :=
    [ path_join h [env_or_empty env "LOCALAPPDATA";
                   "UnrealEngine"; "Common"; "LauncherInstalled.dat"];
      path_join h [env_or_empty env "PROGRAMDATA";
                   "Epic"; "UnrealEngineLauncher"; "LauncherInstalled.dat"] ] in
  flat_map (LauncherManifest.read_manifest h) manifestPaths.

Definition envVars : list string :=
  ["UE_ENGINE_PATH"; "UE_ROOT"; "UNREAL_ENGINE_PATH"].

Definition environment_installation (envVar enginePath : string)
  : EngineInstallation :=
  {| path := JStr enginePath;
     associationId := "ENV_" +:+ envVar;
     displayName := "UE Engine (from " +:+ envVar +:+ ")";
     installedDate := None;
     version := None |}.

(** The loop over the variable names. *)
Fixpoint environment_loop (h : Host) (env : Env) (names : list string)
  : option EngineInstallation :=
  match names with
  | [] => None
  | envVar :: rest =>
      match env envVar with
      | Some enginePath =>
          if negb (String.eqb enginePath EmptyString) && fs_pathExists h enginePath
          then Some (environment_installation envVar enginePath)
          else environment_loop h env rest
      | None => environment_loop h env rest
      end
  end.

(** [getEngineFromEnvironment]. *)
Definition getEngineFromEnvironment (h : Host) (env : Env)
  : option EngineInstallation :=
  environment_loop h env envVars.

(** [getEnginesFromRegistry], given how the [reg query] went: its output,
    or the exception of a failed query. *)
Definition getEnginesFromRegistry (query : result string) : list EngineInstallation :=
  match query with
  | Ok stdout => omap RegistryOutput.parse_line (Text.split_on "010" stdout)
  | Throw _ => []
  end.

End Probe.

(** The probes' fields of a host are what the probes return for the
    environment [env] and the outcome [query] of the registry query, read
    at the declared type. *)
Definition probes_of (h : Host) (env : Probe.Env) (query : result string) : Prop :=
  getEnginesFromRegistry h = Probe.getEnginesFromRegistry query
  /\ mapM LauncherManifest.typed (Probe.getEnginesFromLauncher h env)
     = Some (getEnginesFromLauncher h)
  /\ getEngineFromEnvironment h = Probe.getEngineFromEnvironment h env.

(** A pushed installation whose [InstallLocation] was a string. *)
Definition string_location (p : LauncherManifest.Pushed) : Prop :=
  exists s, LauncherManifest.pushed_path p = JStr s.

(** A variable the environment probe can use: set, not empty, and naming a
    path that exists. *)
Definition usable_variable (h : Host) (env : Probe.Env) (envVar : string) : Prop :=
  exists enginePath,
    env envVar = Some enginePath
    /\ enginePath <> EmptyString
    /\ fs_pathExists h enginePath = true.

(** The installation the launcher probe pushes for the manifest entry with
    the properties [fields], an entry whose [AppName] is a string: the
    display name is [DisplayName], or [UE] and the text of [AppVersion]
    when that is falsy; there is none when that text cannot be formed. *)
Definition manifest_entry (fields : list (string * jsval))
  : option LauncherManifest.Pushed :=
  match (if truthy (lookup_field "DisplayName" fields)
         then Ok (lookup_field "DisplayName" fields)
         else let* text := toString (lookup_field "AppVersion" fields) in
              Ok (JStr ("UE " +:+ text))) with
  | Ok display =>
      Some {| LauncherManifest.pushed_path := lookup_field "InstallLocation" fields;
              LauncherManifest.pushed_associationId :=
                LauncherManifest.app_tag (lookup_field "AppName" fields);
              LauncherManifest.pushed_displayName := display;
              LauncherManifest.pushed_installedDate := lookup_field "InstallDate" fields |}
  | Throw _ => None
  end.

(** An entry of [InstallationList] whose properties can be read: anything
    but [null]. *)
Definition readable (installation : jsval) : Prop :=
  installation <> JNull /\ installation <> JUndefined.

(** A host that is not Windows, with [UE_ROOT] naming an existing path. *)
Definition linux_env : Probe.Env := fun name =>
  if String.eqb name "UE_ROOT" then Some "/opt/UnrealEngine"
  else if String.eqb name "UNREAL_ENGINE_PATH" then Some "/opt/Other"
  else None.

Definition linux_host : Host :=
  {| path_normalize := fun p => p;
     path_join := String.concat "/";
     path_type_error := fun v =>
       "The path argument must be of type string. Received " +:+ Sample.inspect v;
     toLowerCase := Sample.lower;
     fs_pathExists := fun f =>
       String.eqb f "/opt/UnrealEngine" || String.eqb f "/opt/Other";
     fs_stat_isDirectory := fun _ => Ok true;
     fs_readdir := fun _ => Ok [];
     fs_readFile := fun _ => Throw "EISDIR: illegal operation on a directory";
     JSON_parse := fun _ => Throw "Unexpected token";
     JSON_parse_version := fun _ => Throw "Unexpected token";
     Platform_isWindows := false;
     getEnginesFromRegistry := [];
     getEnginesFromLauncher := [];
     getEngineFromEnvironment :=
       Some (Probe.environment_installation "UE_ROOT" "/opt/UnrealEngine") |}.

(** The host [h] with the probes' fields filled in by the probes
    themselves, run on the file system of [h], the environment [env] and
    the outcome [query] of the registry query. Launcher installations that
    do not have the declared type leave the launcher's field empty. *)
Definition with_probes (h : Host) (env : Probe.Env) (query : result string) : Host :=
  {| path_normalize := path_normalize h;
     path_join := path_join h;
     path_type_error := path_type_error h;
     toLowerCase := toLowerCase h;
     fs_pathExists := fs_pathExists h;
     fs_stat_isDirectory := fs_stat_isDirectory h;
     fs_readdir := fs_readdir h;
     fs_readFile := fs_readFile h;
     JSON_parse := JSON_parse h;
     JSON_parse_version := JSON_parse_version h;
     Platform_isWindows := Platform_isWindows h;
     getEnginesFromRegistry := Probe.getEnginesFromRegistry query;
     getEnginesFromLauncher :=
       default [] (mapM LauncherManifest.typed (Probe.getEnginesFromLauncher h env));
     getEngineFromEnvironment := Probe.getEngineFromEnvironment h env |}.

(** A Windows machine: two builds in the registry, a launcher manifest
    under [LOCALAPPDATA] with three entries, no engine variable set. *)
Module Windows.

Definition crlf : string := String "013" (String "010" EmptyString).

Definition reg_output : string :=
  crlf +:+ "HKEY_CURRENT_USER\SOFTWARE\Epic Games\Unreal Engine\Builds" +:+ crlf
  +:+ "    {1234-ABCD}    REG_SZ    C:/Epic/Source" +:+ crlf
  +:+ "    {5678-EF00}    REG_SZ    D:/Engines/UE_5.4" +:+ crlf.

Definition env : Probe.Env := fun name =>
  if String.eqb name "LOCALAPPDATA" then Some "C:/Users/dev/AppData/Local" else None.

Definition manifest_path : string :=
  "C:/Users/dev/AppData/Local/UnrealEngine/Common/LauncherInstalled.dat".

Definition launcher_entries : list (list (string * jsval)) :=
  [ [("InstallLocation", JStr "C:/Program Files/Epic Games/UE_5.3");
     ("AppName", JStr "UE_5"); ("AppVersion", JStr "5.3.2-29314046")];
    [("InstallLocation", JStr "C:/Games/Fortnite");
     ("AppName", JStr "Fortnite"); ("DisplayName", JStr "Fortnite")];
    [("InstallLocation", JStr "c:/epic/source");
     ("AppName", JStr "UE_4"); ("DisplayName", JStr "Unreal Engine 4.27");
     ("InstallDate", JStr "2023-01-15")] ].

Definition manifest (entries : list jsval) : jsval :=
  JObj [("InstallationList", JArr entries)].

(** The file system, with [entries] for the manifest's list. *)
Definition files (entries : list jsval) : Host :=
  {| path_normalize := fun p => p;
     path_join := String.concat "/";
     path_type_error := fun v =>
       "The path argument must be of type string. Received " +:+ Sample.inspect v;
     toLowerCase := Sample.lower;
     fs_pathExists := fun f => String.eqb f manifest_path;
     fs_stat_isDirectory := fun _ => Ok false;
     fs_readdir := fun _ => Throw "ENOTDIR: not a directory";
     fs_readFile := fun f =>
       if String.eqb f manifest_path then Ok "manifest"
       else Throw "ENOENT: no such file or directory";
     JSON_parse := fun content =>
       if String.eqb content "manifest" then Ok (manifest entries)
       else Throw "Unexpected token";
     JSON_parse_version := fun _ => Throw "Unexpected token";
     Platform_isWindows := true;
     getEnginesFromRegistry := [];
     getEnginesFromLauncher := [];
     getEngineFromEnvironment := None |}.

Definition machine : Host :=
  with_probes (files (JObj <$> launcher_entries)) env (Ok reg_output).

(** The same machine with a fourth launcher entry that has no
    [InstallLocation]. *)
Definition broken_machine : Host :=
  with_probes
    (files ((JObj <$> launcher_entries)
            ++ [JObj [("AppName", JStr "UE_5"); ("DisplayName", JStr "Unreal Engine")]]))
    env (Ok reg_output).

End Windows.

(** The form of what the registry probe returns: a guid in braces, not
    empty and without a closing brace inside, a path that is a string, the
    display name made from the guid, no date, no version. *)
Definition registry_shaped (e : EngineInstallation) : Prop :=
  exists g enginePath,
    g <> EmptyString
    /\ string_forallb (fun c => negb (Ascii.eqb c "}")) g = true
    /\ e = RegistryOutput.registry_installation ("{" +:+ g +:+ "}") enginePath.

#[global] Instance string_path_dec e : Decision (string_path e).
Proof.
  unfold string_path. destruct (path e) as [| | | |p| |];
    first [ left; by eexists | right; by intros [? ?] ].
Defined.

(** * Properties *)

(** ** The sort *)

Section Sort.
Context {A : Type} (cmp : A -> A -> Z).

Lemma insert_sorted_perm x l : insert_sorted cmp x l ≡ₚ x :: l.
Proof.
  induction l as [|y r IH]; simpl; [done|].
  destruct (cmp x y <=? 0); [done|].
  rewrite IH. apply Permutation_swap.
Qed.

Lemma Array_sort_perm l : Array_sort cmp l ≡ₚ l.
Proof.
  induction l as [|x l IH]; simpl; [done|].
  unfold Array_sort in *. simpl.
  rewrite insert_sorted_perm. by rewrite IH.
Qed.

Lemma elem_of_Array_sort x l : x ∈ Array_sort cmp l ↔ x ∈ l.
Proof. by rewrite Array_sort_perm. Qed.

Lemma Array_sort_nonempty l : l <> [] -> Array_sort cmp l <> [].
Proof.
  intros Hl Hs. apply Hl.
  apply Permutation_nil_r. rewrite <- Hs. by rewrite Array_sort_perm.
Qed.

(** A consistent comparator: [before cmp] is transitive and total. *)
Hypothesis before_trans :
  forall x y z, before cmp x y -> before cmp y z -> before cmp x z.
Hypothesis before_total :
  forall x y, before cmp x y \/ before cmp y x.

Lemma insert_sorted_sorted x l :
  StronglySorted (before cmp) l ->
  StronglySorted (before cmp) (insert_sorted cmp x l).
Proof.
  induction 1 as [|y r Hr IH Hy]; simpl.
  - repeat constructor.
  - destruct (Z.leb_spec (cmp x y) 0) as [Hle|Hgt].
    + constructor; [by constructor|].
      constructor; [done|].
      eapply Forall_impl; [exact Hy|]. intros z Hz. by eapply before_trans.
    + constructor; [done|].
      rewrite insert_sorted_perm. constructor; [|done].
      destruct (before_total x y) as [Hxy|Hyx]; [|done].
      unfold before in Hxy. lia.
Qed.

Lemma Array_sort_sorted l : StronglySorted (before cmp) (Array_sort cmp l).
Proof.
  induction l as [|x l IH]; [constructor|].
  by apply insert_sorted_sorted.
Qed.

(** The element the fallback picks is in the array and may stand before
    every element of it. *)
Lemma Array_sort_head first rest l :
  Array_sort cmp l = first :: rest ->
  first ∈ l /\ forall c, c ∈ l -> before cmp first c.
Proof.
  intros Hs. split.
  - apply elem_of_Array_sort. rewrite Hs. by left.
  - intros c Hc. apply elem_of_Array_sort in Hc.
    pose proof (Array_sort_sorted l) as Hsorted.
    rewrite Hs in Hsorted, Hc.
    apply StronglySorted_cons in Hsorted as [Hall _].
    apply elem_of_cons in Hc as [->|Hc].
    + destruct (before_total first first); done.
    + by eapply Forall_forall in Hall.
Qed.

End Sort.

(** ** The comparator *)

Lemma compareVersions_differences a b :
  compareVersions (Some a) (Some b) = first_difference (version_differences a b).
Proof.
  unfold compareVersions, version_differences, first_difference.
  repeat match goal with
         | |- context [?x =? ?y] => destruct (Z.eqb_spec x y); simpl
         end; lia.
Qed.

Ltac compare_cases :=
  unfold compareVersions;
  repeat match goal with
         | v : option EngineVersionInfo |- _ => destruct v
         end;
  repeat match goal with
         | |- context [?x =? ?y] => destruct (Z.eqb_spec x y); simpl
         | H : context [?x =? ?y] |- _ => destruct (Z.eqb_spec x y); simpl in H
         end;
  try lia.

Lemma compareVersions_antisym a b :
  compareVersions a b <= 0 <-> 0 <= compareVersions b a.
Proof. compare_cases. Qed.

Lemma compareVersions_trans a b c :
  compareVersions a b <= 0 -> compareVersions b c <= 0 -> compareVersions a c <= 0.
Proof. compare_cases. Qed.

Lemma newest_first_trans x y z :
  before newest_first x y -> before newest_first y z -> before newest_first x z.
Proof.
  unfold before, newest_first. intros Hxy Hyz.
  by eapply compareVersions_trans.
Qed.

Lemma newest_first_total x y :
  before newest_first x y \/ before newest_first y x.
Proof.
  unfold before, newest_first.
  pose proof (compareVersions_antisym (version x) (version y)).
  pose proof (compareVersions_antisym (version y) (version x)).
  lia.
Qed.

(** Stability on the installations without a version: inserting leaves
    their order as it was. *)
Lemma insert_sorted_versionless x l :
  filter versionless (insert_sorted newest_first x l)
  = filter versionless (x :: l).
Proof.
  induction l as [|y r IH]; [done|].
  simpl. destruct (Z.leb_spec (newest_first x y) 0) as [Hle|Hgt]; [done|].
  rewrite filter_cons, IH, !filter_cons.
  unfold newest_first in Hgt.
  destruct (decide (versionless y)) as [Hy|Hy]; [|done].
  destruct (decide (versionless x)) as [Hx|Hx]; [|done].
  unfold versionless in Hx, Hy. rewrite Hx, Hy in Hgt. simpl in Hgt. lia.
Qed.

Lemma Array_sort_versionless l :
  filter versionless (Array_sort newest_first l) = filter versionless l.
Proof.
  induction l as [|x l IH]; [done|].
  unfold Array_sort in *. simpl.
  rewrite insert_sorted_versionless, !filter_cons. by rewrite IH.
Qed.

(** C3: the comparator is the first non-zero of the differences of major,
    minor, patch and changelist; a missing version compares strictly below
    any version and equal to another missing version; the fallback sort
    keeps the installations without a version in the order they had. *)
Theorem compareVersions_ranking :
  (forall a b,
     compareVersions (Some a) (Some b) = first_difference (version_differences a b))
  /\ (forall b, compareVersions None (Some b) < 0)
  /\ (forall a, 0 < compareVersions (Some a) None)
  /\ compareVersions None None = 0
  /\ (forall l,
        filter versionless (Array_sort newest_first l) = filter versionless l).
Proof.
  split; [exact compareVersions_differences|].
  split; [intros b; simpl; lia|].
  split; [intros a; simpl; lia|].
  split; [reflexivity|].
  exact Array_sort_versionless.
Qed.

(** ** Deduplication *)

Lemma dedup_loop_step h e rest seen unique :
  string_path e ->
  dedup_loop h (e :: rest) seen unique =
    if decide (normalizedPath h e ∈ seen) then dedup_loop h rest seen unique
    else dedup_loop h rest ({[normalizedPath h e]} ∪ seen) (unique ++ [e]).
Proof.
  intros [p Hp]. simpl. unfold normalizedPath. rewrite Hp. reflexivity.
Qed.

(** The loop invariant: what the loop appends to [unique] while it visits
    [l], given the keys [seen] so far. *)
Lemma dedup_loop_spec h l : forall seen unique,
  Forall string_path l ->
  exists kept,
    dedup_loop h l seen unique = Ok (unique ++ kept)
    /\ sublist kept l
    /\ NoDup (normalizedPath h <$> kept)
    /\ (forall e, e ∈ kept -> normalizedPath h e ∉ seen)
    /\ (forall e, e ∈ l ->
          normalizedPath h e ∈ seen \/ normalizedPath h e ∈ normalizedPath h <$> kept)
    /\ (forall pre e post, l = pre ++ e :: post ->
          normalizedPath h e ∉ seen ->
          normalizedPath h e ∉ normalizedPath h <$> pre -> e ∈ kept)
    /\ (forall e, e ∈ kept -> exists pre post,
          l = pre ++ e :: post /\ normalizedPath h e ∉ normalizedPath h <$> pre).
Proof.
  induction l as [|x r IH]; intros seen unique Hall.
  - exists []. simpl. rewrite app_nil_r.
    split; [done|]. split; [done|]. split; [constructor|].
    split; [intros e He; by apply elem_of_nil in He|].
    split; [intros e He; by apply elem_of_nil in He|].
    split; [intros pre e post Heq; by destruct pre|].
    intros e He. by apply elem_of_nil in He.
  - apply Forall_cons in Hall as [Hx Hr].
    rewrite dedup_loop_step by done.
    destruct (decide (normalizedPath h x ∈ seen)) as [Hin|Hnin].
    + destruct (IH seen unique Hr) as (kept & Hrun & Hsub & Hnd & Hfresh & Hcov & Hfirst & Hwhere).
      exists kept. split; [done|]. split; [by apply sublist_cons|].
      split; [done|]. split; [done|]. split; [|split].
      * intros e He. apply elem_of_cons in He as [->|He]; [by left|by apply Hcov].
      * intros pre e post Heq Hseen Hpre.
        destruct pre as [|y pre]; simpl in Heq; injection Heq as Hhd Htl; subst; [done|].
        eapply Hfirst; [done|done|]. rewrite fmap_cons in Hpre.
        by apply not_elem_of_cons in Hpre as [_ ?].
      * intros e He. destruct (Hwhere e He) as (pre & post & -> & Hpre).
        exists (x :: pre), post. split; [done|].
        rewrite fmap_cons. apply not_elem_of_cons. split; [|done].
        intros Heq. apply (Hfresh e He). by rewrite Heq.
    + destruct (IH ({[normalizedPath h x]} ∪ seen) (unique ++ [x]) Hr)
        as (kept & Hrun & Hsub & Hnd & Hfresh & Hcov & Hfirst & Hwhere).
      exists (x :: kept). split; [by rewrite Hrun, <- app_assoc|].
      split; [by apply sublist_skip|].
      split; [|split; [|split; [|split]]].
      * rewrite fmap_cons. apply NoDup_cons. split; [|done].
        intros Hk. apply list_elem_of_fmap in Hk as (e & Heq & He).
        apply (Hfresh e He). rewrite <- Heq. set_solver.
      * intros e He. apply elem_of_cons in He as [->|He]; [done|].
        specialize (Hfresh e He). set_solver.
      * intros e He. rewrite fmap_cons.
        apply elem_of_cons in He as [->|He]; [right; by left|].
        destruct (Hcov e He) as [Hs|Hk]; [|right; by right].
        apply elem_of_union in Hs as [Hs|Hs]; [|by left].
        apply elem_of_singleton in Hs. rewrite Hs. right. by left.
      * intros pre e post Heq Hseen Hpre.
        destruct pre as [|y pre]; simpl in Heq; injection Heq as Hhd Htl; subst; [by left|].
        right. rewrite fmap_cons in Hpre. apply not_elem_of_cons in Hpre as [Hne Hpre].
        eapply Hfirst; [done| |done].
        apply not_elem_of_union. split; [by apply not_elem_of_singleton|done].
      * intros e He. apply elem_of_cons in He as [->|He].
        -- exists [], r. split; [done|]. simpl. apply not_elem_of_nil.
        -- destruct (Hwhere e He) as (pre & post & -> & Hpre).
           exists (x :: pre), post. split; [done|].
           rewrite fmap_cons. apply not_elem_of_cons. split; [|done].
           intros Heq. apply (Hfresh e He). rewrite Heq. set_solver.
Qed.

(** C4: on installations whose paths are strings, deduplication keeps a
    subsequence of its input with one installation per normalized,
    case-folded path, and the one kept is the first with that key. *)
Theorem removeDuplicateEngines_first_occurrence h l :
  Forall string_path l ->
  exists unique,
    removeDuplicateEngines h l = Ok unique
    /\ sublist unique l
    /\ NoDup (normalizedPath h <$> unique)
    /\ (forall e, e ∈ l -> normalizedPath h e ∈ normalizedPath h <$> unique)
    /\ (forall pre e post, l = pre ++ e :: post ->
          normalizedPath h e ∉ normalizedPath h <$> pre -> e ∈ unique)
    /\ (forall e, e ∈ unique -> exists pre post,
          l = pre ++ e :: post /\ normalizedPath h e ∉ normalizedPath h <$> pre).
Proof.
  intros Hall.
  destruct (dedup_loop_spec h l ∅ [] Hall)
    as (kept & Hrun & Hsub & Hnd & _ & Hcov & Hfirst & Hwhere).
  exists kept. split; [exact Hrun|]. split; [done|]. split; [done|].
  split; [|split; [|done]].
  - intros e He. destruct (Hcov e He) as [Hempty|Hk]; [|done].
    by apply not_elem_of_empty in Hempty.
  - intros pre e post Heq Hpre. eapply Hfirst; [done| |done].
    apply not_elem_of_empty.
Qed.

Lemma removeDuplicateEngines_witness :
  exists unique,
    removeDuplicateEngines (Sample.host None [] [] [])
      [Sample.guid1; Sample.launcher5; Sample.guid2] = Ok unique
    /\ sublist unique [Sample.guid1; Sample.launcher5; Sample.guid2]
    /\ NoDup (normalizedPath (Sample.host None [] [] []) <$> unique)
    /\ (forall e, e ∈ [Sample.guid1; Sample.launcher5; Sample.guid2] ->
          normalizedPath (Sample.host None [] [] []) e
            ∈ normalizedPath (Sample.host None [] [] []) <$> unique)
    /\ (forall pre e post,
          [Sample.guid1; Sample.launcher5; Sample.guid2] = pre ++ e :: post ->
          normalizedPath (Sample.host None [] [] []) e
            ∉ normalizedPath (Sample.host None [] [] []) <$> pre -> e ∈ unique)
    /\ (forall e, e ∈ unique -> exists pre post,
          [Sample.guid1; Sample.launcher5; Sample.guid2] = pre ++ e :: post
          /\ normalizedPath (Sample.host None [] [] []) e
               ∉ normalizedPath (Sample.host None [] [] []) <$> pre).
Proof.
  apply (removeDuplicateEngines_first_occurrence (Sample.host None [] [] [])
           [Sample.guid1; Sample.launcher5; Sample.guid2]).
  repeat constructor; eexists; reflexivity.
Defined.

(** Scenario D: a launcher entry whose path differs from a registry entry's
    in case only is dropped. *)
Example dedup_case_insensitive :
  removeDuplicateEngines (Sample.host None [] [] [])
    [Sample.guid1; Sample.launcher5; Sample.guid2]
  = Ok [Sample.guid1; Sample.guid2].
Proof. vm_compute. reflexivity. Qed.

(** A path that is not a string stops deduplication with the TypeError of
    [path.normalize]. *)
Lemma dedup_loop_throws h pre e post seen unique :
  Forall string_path pre -> ~ string_path e ->
  dedup_loop h (pre ++ e :: post) seen unique = Throw (path_type_error h (path e)).
Proof.
  intros Hpre He. revert seen unique.
  induction Hpre as [|x pre Hx Hpre IH]; intros seen unique.
  - simpl. destruct (path e) eqn:Hp; try reflexivity.
    exfalso. apply He. by eexists.
  - rewrite <- app_comm_cons, dedup_loop_step by done.
    destruct (decide _); apply IH.
Qed.

(** Discovery returns when every probe result has a string path, and
    throws at the first that has not. *)
Lemma findEngineInstallations_returns h :
  Forall string_path (probe_results h) ->
  exists unique,
    removeDuplicateEngines h (probe_results h) = Ok unique
    /\ findEngineInstallations h = Ok (loadEngineVersionInfo h <$> unique).
Proof.
  intros Hall.
  destruct (dedup_loop_spec h (probe_results h) ∅ [] Hall) as (kept & Hrun & _).
  exists kept. unfold findEngineInstallations, removeDuplicateEngines.
  by rewrite Hrun.
Qed.

Lemma findEngineInstallations_throws h pre e post :
  probe_results h = pre ++ e :: post ->
  Forall string_path pre -> ~ string_path e ->
  findEngineInstallations h = Throw (path_type_error h (path e)).
Proof.
  intros Heq Hpre He.
  unfold findEngineInstallations, removeDuplicateEngines.
  by rewrite Heq, dedup_loop_throws.
Qed.

(** ** The version loader *)

Lemma loadEngineVersionInfo_associationId h e :
  associationId (loadEngineVersionInfo h e) = associationId e.
Proof.
  unfold loadEngineVersionInfo.
  repeat case_match; reflexivity.
Qed.

Lemma loadEngineVersionInfo_path h e :
  path (loadEngineVersionInfo h e) = path e.
Proof.
  unfold loadEngineVersionInfo.
  repeat case_match; subst; simpl; congruence.
Qed.

(** ** The association reader *)

Lemma association_try_some h p a ws :
  association_try h p = Ok (Some a, ws) ->
  ws = [] /\ truthy (guid a) = true /\ name a = guid a.
Proof.
  unfold association_try, bind.
  repeat case_match; intros Heq; simplify_eq.
  simpl. split; [done|]. split; [|done].
  by apply negb_false_iff.
Qed.

Lemma reader_some h p a ws :
  getEngineAssociationFromProject h p = (Some a, ws) ->
  ws = [] /\ truthy (guid a) = true /\ name a = guid a.
Proof.
  unfold getEngineAssociationFromProject.
  destruct (association_try h p) as [[o w]|msg] eqn:Htry; intros Heq; simplify_eq.
  by eapply association_try_some.
Qed.

Lemma project_association_some h pp a ws :
  project_association h pp = (Some a, ws) ->
  ws = [] /\ truthy (guid a) = true /\ name a = guid a.
Proof.
  unfold project_association.
  repeat case_match; intros Heq; simplify_eq.
  by eapply reader_some.
Qed.

(** C9, as amended: once the descriptor is located, read and parsed, a
    truthy [EngineAssociation] (for a string: a non-empty one) is returned
    unchanged as both [guid] and [name], whatever its format; a falsy one,
    the empty string included, is reported as missing. *)
Theorem reader_returns_raw_field h p uprojectPath content uproject field :
  locate_uproject h p = Ok (inr uprojectPath) ->
  endsWith uprojectPath uproject_ext = true ->
  fs_readFile h uprojectPath = Ok content ->
  JSON_parse h content = Ok uproject ->
  get_prop uproject "EngineAssociation" = Ok field ->
  getEngineAssociationFromProject h p =
    if truthy field then (Some {| guid := field; name := field |}, [])
    else (None, ["No EngineAssociation found in .uproject file"]).
Proof.
  intros Hloc Hext Hread Hparse Hfield.
  unfold getEngineAssociationFromProject, association_try.
  rewrite Hloc. simpl. rewrite Hext. simpl.
  rewrite Hread. simpl. rewrite Hparse. simpl. rewrite Hfield. simpl.
  by destruct (truthy field).
Qed.

Lemma reader_returns_raw_field_witness :
  getEngineAssociationFromProject Scenario.associated Sample.project_file =
    if truthy (JStr "{GUID-1}")
    then (Some {| guid := JStr "{GUID-1}"; name := JStr "{GUID-1}" |}, [])
    else (None, ["No EngineAssociation found in .uproject file"]).
Proof.
  apply (reader_returns_raw_field Scenario.associated Sample.project_file
           Sample.project_file Sample.project_file
           (Sample.descriptor_with (JStr "{GUID-1}")) (JStr "{GUID-1}"));
    reflexivity.
Defined.

(** C9, as stated, fails on a descriptor whose [EngineAssociation] is the
    empty string: the field is present and holds a string, and the reader
    returns no association. *)
Lemma reader_rejects_empty_string :
  (exists content uproject,
      fs_readFile Scenario.empty_association Sample.project_file = Ok content
      /\ JSON_parse Scenario.empty_association content = Ok uproject
      /\ get_prop uproject "EngineAssociation" = Ok (JStr EmptyString))
  /\ getEngineAssociationFromProject Scenario.empty_association Sample.project_file
     = (None, ["No EngineAssociation found in .uproject file"]).
Proof.
  split; [|reflexivity].
  exists Sample.project_file, (Sample.descriptor_with (JStr EmptyString)).
  repeat split; reflexivity.
Qed.

(** ** The resolver *)

Lemma strict_eq_true s v : strict_eq s v = true <-> v = JStr s.
Proof.
  destruct v; simpl; try (split; [discriminate|congruence]).
  rewrite String.eqb_eq. split; congruence.
Qed.

Lemma find_first {A : Type} (f : A -> bool) pre e post :
  (forall c, c ∈ pre -> f c = false) -> f e = true ->
  find f (pre ++ e :: post) = Some e.
Proof.
  intros Hpre He. induction pre as [|c pre IH]; simpl.
  - by rewrite He.
  - rewrite (Hpre c) by (by left). apply IH.
    intros c' Hc'. apply Hpre. by right.
Qed.

Lemma nonempty_length {A : Type} (l : list A) :
  l <> [] -> (0 <? length l)%nat = true.
Proof. destruct l; [done|reflexivity]. Qed.

(** What the [try] block does once discovery has returned [cands] and the
    project gave the association [a]. *)
Lemma resolve_try_matched h pp a ws cands e :
  project_association h pp = (Some a, ws) ->
  findEngineInstallations h = Ok cands ->
  find (fun c => strict_eq (associationId c) (guid a)) cands = Some e ->
  resolveEngine h pp =
    {| engine := Some e; uprojectEngine := Some a; warnings := ws; error := None |}.
Proof.
  intros Hassoc Hfind Hmatch.
  unfold resolveEngine, resolve_try. rewrite Hassoc, Hfind.
  assert (cands <> []) as Hne by (intros ->; discriminate).
  rewrite (nonempty_length _ Hne), Hmatch. reflexivity.
Qed.

Lemma resolve_try_fallback h pp a ws cands text :
  project_association h pp = (Some a, ws) ->
  findEngineInstallations h = Ok cands ->
  cands <> [] ->
  find (fun c => strict_eq (associationId c) (guid a)) cands = None ->
  toString (guid a) = Ok text ->
  exists first rest,
    Array_sort newest_first cands = first :: rest
    /\ resolveEngine h pp =
         {| engine := Some first; uprojectEngine := Some a;
            warnings :=
              ws ++ ["Engine with association ID " +:+ text
                       +:+ " not found in installed engines"]
                 ++ [fallback_warning first];
            error := None |}.
Proof.
  intros Hassoc Hfind Hne Hmatch Htext.
  destruct (project_association_some _ _ _ _ Hassoc) as (-> & Htruthy & _).
  destruct (Array_sort newest_first cands) as [|first rest] eqn:Hsort.
  { by apply Array_sort_nonempty in Hsort. }
  exists first, rest. split; [done|].
  unfold resolveEngine, resolve_try, not_found_warning. rewrite Hassoc, Hfind.
  rewrite (nonempty_length _ Hne), Hmatch, Htruthy, Htext. simpl.
  rewrite Hsort. reflexivity.
Qed.

(** The template of the first warning converts the guid to text; when the
    conversion throws, the block is left with the reader's warnings. *)
Lemma resolve_try_unprintable h pp a ws cands msg :
  project_association h pp = (Some a, ws) ->
  findEngineInstallations h = Ok cands ->
  cands <> [] ->
  find (fun c => strict_eq (associationId c) (guid a)) cands = None ->
  toString (guid a) = Throw msg ->
  resolve_try h pp = (Throw msg, ws).
Proof.
  intros Hassoc Hfind Hne Hmatch Htext.
  destruct (project_association_some _ _ _ _ Hassoc) as (_ & Htruthy & _).
  unfold resolve_try, not_found_warning. rewrite Hassoc, Hfind.
  rewrite (nonempty_length _ Hne), Hmatch, Htruthy, Htext. reflexivity.
Qed.

Lemma find_none_iff cands g :
  find (fun c => strict_eq (associationId c) g) cands = None
  <-> (forall c, c ∈ cands -> JStr (associationId c) <> g).
Proof.
  split.
  - intros Hmatch c Hc Heq. apply list_elem_of_In in Hc.
    pose proof (find_none _ _ Hmatch c Hc) as Hno. simpl in Hno.
    assert (strict_eq (associationId c) g = true) as Hyes
      by (by apply strict_eq_true).
    congruence.
  - intros Hnone. destruct (find _ cands) as [e|] eqn:Hsome; [|done].
    apply find_some in Hsome as [Hin He].
    apply strict_eq_true in He. apply list_elem_of_In in Hin.
    by destruct (Hnone e Hin).
Qed.

(** C1: when the association's guid equals the association id of a
    discovered candidate, such a candidate is the result's engine and the
    warnings are the reader's, with no fallback warning among them. *)
Theorem resolveEngine_exact_match h pp a ws cands :
  project_association h pp = (Some a, ws) ->
  findEngineInstallations h = Ok cands ->
  (exists c, c ∈ cands /\ JStr (associationId c) = guid a) ->
  exists e,
    engine (resolveEngine h pp) = Some e
    /\ e ∈ cands
    /\ JStr (associationId e) = guid a
    /\ warnings (resolveEngine h pp) = ws
    /\ (forall c, fallback_warning c ∉ warnings (resolveEngine h pp))
    /\ error (resolveEngine h pp) = None.
Proof.
  intros Hassoc Hfind (c & Hc & Hguid).
  destruct (find (fun c => strict_eq (associationId c) (guid a)) cands)
    as [e|] eqn:Hmatch.
  - apply find_some in Hmatch as Hsome. destruct Hsome as [Hin He].
    apply strict_eq_true in He. apply list_elem_of_In in Hin.
    exists e. rewrite (resolve_try_matched _ _ _ _ _ _ Hassoc Hfind Hmatch). simpl.
    destruct (project_association_some _ _ _ _ Hassoc) as (-> & _ & _).
    repeat split; try done.
    intros c'. apply not_elem_of_nil.
  - exfalso. apply list_elem_of_In in Hc.
    pose proof (find_none _ _ Hmatch c Hc) as Hno. simpl in Hno.
    assert (strict_eq (associationId c) (guid a) = true) as Hyes
      by (by apply strict_eq_true).
    congruence.
Qed.

(** Scenario B. *)
Lemma resolveEngine_exact_match_witness :
  exists e,
    engine (resolveEngine Scenario.associated (Some Sample.project_file)) = Some e
    /\ e ∈ [Sample.guid2; Sample.guid1]
    /\ JStr (associationId e) = JStr "{GUID-1}"
    /\ warnings (resolveEngine Scenario.associated (Some Sample.project_file)) = []
    /\ (forall c, fallback_warning c
          ∉ warnings (resolveEngine Scenario.associated (Some Sample.project_file)))
    /\ error (resolveEngine Scenario.associated (Some Sample.project_file)) = None.
Proof.
  apply (resolveEngine_exact_match Scenario.associated (Some Sample.project_file)
           {| guid := JStr "{GUID-1}"; name := JStr "{GUID-1}" |} []
           [Sample.guid2; Sample.guid1]).
  - reflexivity.
  - vm_compute. reflexivity.
  - exists Sample.guid1. split; [|reflexivity].
    apply elem_of_cons. right. apply elem_of_cons. by left.
Defined.



(** With 5.3.0 and 5.4.1 installed and an unknown association, the engine is
    the one of 5.4.1. *)
Example unmatched_pair_resolution :
  (associationId <$> engine (resolveEngine Scenario.unmatched_pair
                               (Some Sample.project_file)),
   warnings (resolveEngine Scenario.unmatched_pair (Some Sample.project_file)))
  = (Some "{GUID-2}",
     ["Engine with association ID {GUID-9} not found in installed engines";
      "Using engine UE 5.4.1 (not associated with project)"]).
Proof. vm_compute. reflexivity. Qed.

(** Scenario C. *)
Example scenario_C_warnings :
  warnings (resolveEngine Scenario.unmatched (Some Sample.project_file))
  = ["Engine with association ID {GUID-9} not found in installed engines";
     "Using engine UE 5.1.0 (not associated with project)"].
Proof. vm_compute. reflexivity. Qed.

(** Scenario A: the newer of two engines, one fallback warning. *)
Example scenario_A_newest :
  (associationId <$> engine (resolveEngine Scenario.two_engines None),
   warnings (resolveEngine Scenario.two_engines None))
  = (Some "{GUID-2}", ["Using engine UE 5.4.1 (not associated with project)"]).
Proof. vm_compute. reflexivity. Qed.

(** C10: of several candidates carrying the association's guid, the first
    in deduplicated discovery order is the engine. *)
Theorem resolveEngine_first_match h pp a ws pre e post :
  project_association h pp = (Some a, ws) ->
  removeDuplicateEngines h (probe_results h) = Ok (pre ++ e :: post) ->
  (forall c, c ∈ pre -> JStr (associationId c) <> guid a) ->
  JStr (associationId e) = guid a ->
  engine (resolveEngine h pp) = Some (loadEngineVersionInfo h e).
Proof.
  intros Hassoc Hdedup Hpre He.
  assert (findEngineInstallations h
          = Ok ((loadEngineVersionInfo h <$> pre)
                ++ loadEngineVersionInfo h e :: (loadEngineVersionInfo h <$> post)))
    as Hfind.
  { unfold findEngineInstallations. rewrite Hdedup. simpl.
    by rewrite fmap_app, fmap_cons. }
  erewrite resolve_try_matched; [reflexivity|exact Hassoc|exact Hfind|].
  apply find_first.
  - intros c Hc. apply list_elem_of_fmap in Hc as (c0 & -> & Hc0).
    rewrite loadEngineVersionInfo_associationId.
    destruct (strict_eq (associationId c0) (guid a)) eqn:Heq; [|done].
    apply strict_eq_true in Heq. by destruct (Hpre c0 Hc0).
  - rewrite loadEngineVersionInfo_associationId. by apply strict_eq_true.
Qed.

Lemma resolveEngine_first_match_witness :
  engine (resolveEngine Scenario.twice_registered (Some Sample.project_file))
  = Some (loadEngineVersionInfo Scenario.twice_registered Sample.guid1).
Proof.
  apply (resolveEngine_first_match Scenario.twice_registered
           (Some Sample.project_file)
           {| guid := JStr "{GUID-1}"; name := JStr "{GUID-1}" |} []
           [Sample.guid2] Sample.guid1
           [Sample.installation (JStr "E:/Mirror") "{GUID-1}" "UE Engine {GUID-1}"]).
  - reflexivity.
  - vm_compute. reflexivity.
  - intros c Hc. apply list_elem_of_singleton in Hc. subst c. discriminate.
  - reflexivity.
Defined.

(** ** Outcomes of a resolution *)

(** The [try] block is left by an exception in two ways: discovery throws,
    or, with candidates of which none carries the association's guid, the
    template of the first warning cannot convert the guid to text. The
    warnings at that point are the reader's. *)
Lemma resolve_try_throws h pp msg ws :
  resolve_try h pp = (Throw msg, ws)
  <-> ws = (project_association h pp).2
      /\ (findEngineInstallations h = Throw msg
          \/ exists a cands,
               (project_association h pp).1 = Some a
               /\ findEngineInstallations h = Ok cands
               /\ cands <> []
               /\ (forall c, c ∈ cands -> JStr (associationId c) <> guid a)
               /\ toString (guid a) = Throw msg).
Proof.
  destruct (project_association h pp) as [assoc w0] eqn:Hassoc. simpl.
  destruct (findEngineInstallations h) as [cands|msg'] eqn:Hfind.
  - destruct (decide (cands = [])) as [->|Hne].
    + split.
      * unfold resolve_try. rewrite Hassoc, Hfind. simpl.
        destruct assoc; discriminate.
      * intros [_ [[=]|(a & cands & _ & [= <-] & Hne & _)]]. done.
    + destruct (Array_sort newest_first cands) as [|first rest] eqn:Hsort.
      { by apply Array_sort_nonempty in Hsort. }
      destruct assoc as [a|].
      * destruct (find (fun c => strict_eq (associationId c) (guid a)) cands)
          as [e|] eqn:Hmatch.
        { split.
          - unfold resolve_try. rewrite Hassoc, Hfind.
            rewrite (nonempty_length _ Hne), Hmatch. discriminate.
          - intros [_ [[=]|(a' & cands' & [= <-] & [= <-] & _ & Hnone & _)]].
            apply find_none_iff in Hnone. congruence. }
        destruct (toString (guid a)) as [text|msg''] eqn:Htext.
        { split.
          - destruct (project_association_some _ _ _ _ Hassoc) as (_ & Htruthy & _).
            unfold resolve_try, not_found_warning. rewrite Hassoc, Hfind.
            rewrite (nonempty_length _ Hne), Hmatch, Htruthy, Htext. simpl.
            rewrite Hsort. discriminate.
          - intros [_ [[=]|(a' & cands' & [= <-] & _ & _ & _ & Hthrow)]].
            congruence. }
        rewrite (resolve_try_unprintable _ _ _ _ _ _ Hassoc Hfind Hne Hmatch Htext).
        split.
        -- intros [= -> ->]. split; [done|]. right. exists a, cands.
           split; [done|]. split; [done|]. split; [done|].
           split; [by apply find_none_iff|done].
        -- intros [-> [[=]|(a' & cands' & [= <-] & _ & _ & _ & Hthrow)]].
           congruence.
      * split.
        -- unfold resolve_try. rewrite Hassoc, Hfind.
           rewrite (nonempty_length _ Hne). cbv beta iota zeta.
           rewrite Hsort. discriminate.
        -- intros [_ [[=]|(a' & _ & [=] & _)]].
  - unfold resolve_try. rewrite Hassoc, Hfind. split.
    + intros [= -> ->]. split; [done|by left].
    + intros [-> [[= ->]|(a & cands & _ & [=] & _)]]. done.
Qed.

(** The outcomes, by what discovery returned. *)
Lemma resolveEngine_cases h pp :
  match findEngineInstallations h with
  | Throw msg =>
      resolveEngine h pp =
        {| engine := None; uprojectEngine := None;
           warnings := (project_association h pp).2; error := Some msg |}
  | Ok cands =>
      (cands = [] ->
         resolveEngine h pp =
           {| engine := None; uprojectEngine := (project_association h pp).1;
              warnings := (project_association h pp).2; error := None |})
      /\ (cands <> [] ->
            (exists e, engine (resolveEngine h pp) = Some e /\ e ∈ cands
                       /\ error (resolveEngine h pp) = None)
            \/ (exists a msg,
                  (project_association h pp).1 = Some a
                  /\ (forall c, c ∈ cands -> JStr (associationId c) <> guid a)
                  /\ toString (guid a) = Throw msg
                  /\ resolveEngine h pp =
                       {| engine := None; uprojectEngine := None;
                          warnings := (project_association h pp).2;
                          error := Some msg |}))
  end.
Proof.
  destruct (findEngineInstallations h) as [cands|msg] eqn:Hfind.
  - destruct (project_association h pp) as [assoc w0] eqn:Hassoc.
    split.
    + intros ->. unfold resolveEngine, resolve_try. rewrite Hassoc, Hfind. simpl.
      by destruct assoc.
    + intros Hne.
      destruct (Array_sort newest_first cands) as [|first rest] eqn:Hsort.
      { by apply Array_sort_nonempty in Hsort. }
      assert (first ∈ cands) as Hfirst.
      { apply (elem_of_Array_sort newest_first). rewrite Hsort. by left. }
      destruct assoc as [a|].
      * destruct (find (fun c => strict_eq (associationId c) (guid a)) cands)
          as [e|] eqn:Hmatch.
        { left. rewrite (resolve_try_matched _ _ _ _ _ _ Hassoc Hfind Hmatch).
          simpl. exists e. split; [done|]. split; [|done].
          apply find_some in Hmatch as [Hin _]. by apply list_elem_of_In. }
        destruct (toString (guid a)) as [text|msg] eqn:Htext.
        -- left.
           destruct (resolve_try_fallback _ _ _ _ _ _ Hassoc Hfind Hne Hmatch Htext)
             as (first' & rest' & Hsort' & ->). simpl.
           exists first'. split; [done|]. split; [|done].
           apply (elem_of_Array_sort newest_first). rewrite Hsort'. by left.
        -- right. exists a, msg. simpl. split; [done|].
           split; [by apply find_none_iff|]. split; [done|].
           unfold resolveEngine.
           by rewrite (resolve_try_unprintable _ _ _ _ _ _
                         Hassoc Hfind Hne Hmatch Htext).
      * left. unfold resolveEngine, resolve_try. rewrite Hassoc, Hfind.
        rewrite (nonempty_length _ Hne). cbv beta iota zeta.
        rewrite Hsort. simpl. by exists first.
  - unfold resolveEngine, resolve_try. rewrite Hfind.
    by destruct (project_association h pp).
Qed.


(** An association that is an object with a key [toString] of its own: the
    template of the first warning throws, and the result is an error. *)
Example unprintable_association_error :
  resolveEngine Scenario.unprintable_association (Some Sample.project_file)
  = {| engine := None; uprojectEngine := None; warnings := [];
       error := Some "Cannot convert object to primitive value" |}.
Proof. vm_compute. reflexivity. Qed.

(** A launcher entry without a location: discovery throws, and the result
    carries the error and the warning of the reader. *)
Example broken_manifest_error :
  resolveEngine Scenario.broken_manifest (Some "Game")
  = {| engine := None; uprojectEngine := None;
       warnings := ["Project path is not a .uproject file"];
       error := Some "The path argument must be of type string. Received undefined" |}.
Proof. vm_compute. reflexivity. Qed.

(** C6, as amended: engine and error are never both populated, and exactly
    one of them is, except when discovery returns no candidate: then, and
    only then, neither is. *)
Theorem resolveEngine_outcomes h pp :
  ~ (is_Some (engine (resolveEngine h pp)) /\ is_Some (error (resolveEngine h pp)))
  /\ (engine (resolveEngine h pp) = None /\ error (resolveEngine h pp) = None
      <-> findEngineInstallations h = Ok [])
  /\ (exactly_one_populated (resolveEngine h pp)
      <-> findEngineInstallations h <> Ok []).
Proof.
  pose proof (resolveEngine_cases h pp) as Hcases.
  unfold exactly_one_populated.
  destruct (findEngineInstallations h) as [cands|msg] eqn:Hfind.
  - destruct Hcases as (Hempty & Hsome).
    destruct cands as [|c cands].
    + rewrite (Hempty eq_refl). simpl.
      split; [intros [[? [=]] _]|]. split; [done|].
      split; [|done]. intros [[[? [=]] _]|[_ [? [=]]]].
    + destruct Hsome as [(e & He & _ & Herr)|(a & msg & _ & _ & _ & ->)]; [done|..].
      * rewrite He, Herr.
        split; [intros [_ [? [=]]]|].
        split; [split; [intros [[=] _]|intros [=]]|].
        split; [done|]. intros _. left. split; [by eexists|done].
      * simpl.
        split; [intros [[? [=]] _]|].
        split; [split; [intros [_ [=]]|intros [=]]|].
        split; [done|]. intros _. right. split; [done|by eexists].
  - rewrite Hcases. simpl.
    split; [intros [[? [=]] _]|].
    split; [split; [intros [_ [=]]|intros [=]]|].
    split; [done|]. intros _. right. split; [done|by eexists].
Qed.

(** C6, as stated, fails when nothing is installed: the result has neither
    an engine nor an error. *)
Lemma neither_engine_nor_error :
  ~ exactly_one_populated (resolveEngine Scenario.nothing_installed None).
Proof.
  unfold exactly_one_populated. vm_compute.
  intros [[[e He] _]|[_ [msg Hmsg]]]; discriminate.
Qed.

(** C7, as amended: the resolver has no engine-path override; whatever it
    is called with, a resolved engine is one of the deduplicated results of
    the probes with its version loaded. *)
Theorem resolved_engine_is_discovered h pp e :
  engine (resolveEngine h pp) = Some e ->
  exists unique,
    removeDuplicateEngines h (probe_results h) = Ok unique
    /\ e ∈ loadEngineVersionInfo h <$> unique.
Proof.
  intros He. pose proof (resolveEngine_cases h pp) as Hcases.
  destruct (findEngineInstallations h) as [cands|msg] eqn:Hfind.
  - unfold findEngineInstallations in Hfind.
    destruct (removeDuplicateEngines h (probe_results h)) as [unique|] eqn:Hdedup;
      [|discriminate].
    simpl in Hfind. injection Hfind as <-.
    exists unique. split; [done|].
    destruct Hcases as (Hempty & Hsome).
    destruct (decide (loadEngineVersionInfo h <$> unique = [])) as [Hnil|Hne].
    + rewrite (Hempty Hnil) in He. discriminate.
    + destruct (Hsome Hne) as [(e' & He' & Hin & _)|(a & msg & _ & _ & _ & Hres)].
      * congruence.
      * rewrite Hres in He. discriminate.
  - rewrite Hcases in He. discriminate.
Qed.

Lemma resolved_engine_is_discovered_witness :
  exists unique,
    removeDuplicateEngines Scenario.one_engine (probe_results Scenario.one_engine)
      = Ok unique
    /\ Sample.guid1 ∈ loadEngineVersionInfo Scenario.one_engine <$> unique.
Proof.
  apply (resolved_engine_is_discovered Scenario.one_engine
           (Some "D:/Override/UE_5.4") Sample.guid1).
  vm_compute. reflexivity.
Defined.

(** C7, as stated, fails: no call of the resolver bypasses discovery. Two
    hosts that differ only in what the registry probe returns give
    different results, whatever the argument. *)
Lemma no_call_bypasses_discovery :
  ~ exists projectPath, bypasses_discovery projectPath.
Proof.
  intros [pp Hbypass].
  assert (same_but_probes Scenario.nothing_installed Scenario.one_engine) as Hsame
    by (repeat split).
  specialize (Hbypass _ _ Hsame).
  pose proof (resolveEngine_cases Scenario.nothing_installed pp) as Hnone.
  pose proof (resolveEngine_cases Scenario.one_engine pp) as Hone.
  change (findEngineInstallations Scenario.nothing_installed) with
    (Ok (@nil EngineInstallation)) in Hnone.
  assert (findEngineInstallations Scenario.one_engine = Ok [Sample.guid1]) as Hfind
    by (vm_compute; reflexivity).
  rewrite Hfind in Hone.
  destruct Hnone as (Hempty & _). destruct Hone as (_ & Hsome).
  rewrite (Hempty eq_refl) in Hbypass.
  destruct Hsome as [(e & He & _)|(a & msg & _ & _ & _ & Hres)]; [done|..].
  - rewrite <- Hbypass in He. discriminate.
  - rewrite <- Hbypass in Hres. discriminate.
Qed.

(** ** The path heuristic of the version loader *)

Section PathToken.
Import PathPattern.

Lemma append_cons c r x : String c r +:+ x = String c (r +:+ x).
Proof. reflexivity. Qed.

Lemma append_nil x : EmptyString +:+ x = x.
Proof. reflexivity. Qed.

Lemma append_nil_r s : s +:+ EmptyString = s.
Proof. induction s as [|c r IH]; [done|]. by rewrite append_cons, IH. Qed.

Lemma append_assoc s t x : (s +:+ t) +:+ x = s +:+ t +:+ x.
Proof. induction s as [|c r IH]; [done|]. by rewrite !append_cons, IH. Qed.

Lemma path_match_cons c r :
  path_match (String c r)
  = match match_here (String c r) with
    | Some g => Some g
    | None => path_match r
    end.
Proof. reflexivity. Qed.

(** *** Digits and separators *)

(** One case for each of the 256 characters. *)
Ltac each_character c :=
  destruct c as [? ? ? ? ? ? ? ?];
  repeat match goal with b : bool |- _ => destruct b end.

Lemma digit_of_is_digit c : is_digit c = bool_decide (is_Some (digit_of c)).
Proof. each_character c; reflexivity. Qed.

Lemma digit_of_value c : digit_value 10 c = digit_of c.
Proof. each_character c; reflexivity. Qed.

Lemma is_digit_true c : is_Some (digit_of c) -> is_digit c = true.
Proof. intros Hc. rewrite digit_of_is_digit. by apply bool_decide_eq_true. Qed.

Lemma is_digit_false c : digit_of c = None -> is_digit c = false.
Proof.
  intros Hc. rewrite digit_of_is_digit, Hc. apply bool_decide_eq_false.
  by intros [? [=]].
Qed.

Lemma is_sep_separator c : is_sep c = true <-> separator c.
Proof.
  unfold is_sep, separator. rewrite orb_true_iff, !Ascii.eqb_eq. done.
Qed.

Lemma is_sep_false c : ~ separator c -> is_sep c = false.
Proof.
  intros Hc. destruct (is_sep c) eqn:Hs; [|done].
  by apply is_sep_separator in Hs.
Qed.

Lemma separator_no_digit c : separator c -> digit_of c = None.
Proof. by intros [-> | ->]. Qed.

Lemma digit_no_separator c : is_Some (digit_of c) -> ~ separator c.
Proof. intros [d Hd] Hs. apply separator_no_digit in Hs. congruence. Qed.

Lemma decimal_from_digits s : forall acc,
  is_Some (decimal_from acc s) -> digits_only s.
Proof.
  induction s as [|c r IH]; intros acc; [done|]. simpl.
  destruct (digit_of c) as [d|]; [|by intros [? [=]]].
  intros Hr. split; [by eexists|by eapply IH].
Qed.

Lemma digits_decimal_from s : forall acc,
  digits_only s -> is_Some (decimal_from acc s).
Proof.
  induction s as [|c r IH]; intros acc; [by eexists|]. simpl.
  intros [[d ->] Hr]. by apply IH.
Qed.

(** A run that writes a number: a digit, then digits. *)
Lemma decimal_run run :
  is_Some (decimal run) ->
  exists c r, run = String c r /\ is_Some (digit_of c) /\ digits_only r.
Proof.
  destruct run as [|c r]; [by intros [? [=]]|].
  intros Hrun. apply decimal_from_digits in Hrun as [Hc Hr]. by exists c, r.
Qed.

Lemma decimal_digits run : is_Some (decimal run) -> digits_only run.
Proof. intros (c & r & -> & Hc & Hr)%decimal_run. done. Qed.

(** *** The capture group on a token *)

Lemma digits_tail_stops rest : token_stops rest -> digits_tail rest = EmptyString.
Proof.
  destruct rest as [|c r]; [done|]. intros [Hc Hsep]. simpl.
  rewrite (is_digit_false _ Hc).
  destruct (is_sep c) eqn:Hs; [|done].
  apply is_sep_separator in Hs. specialize (Hsep Hs).
  destruct r as [|d r']; [done|]. by rewrite (is_digit_false _ Hsep).
Qed.

Lemma digits_tail_token more rest :
  Forall (fun '(sep, run) => separator sep /\ is_Some (decimal run)) more ->
  token_stops rest ->
  forall run, digits_only run ->
    digits_tail (run +:+ runs_text more +:+ rest) = run +:+ runs_text more.
Proof.
  intros Hmore Hrest.
  induction Hmore as [|[sep next] more [Hsep Hnext] _ IH].
  - induction run as [|c r IHr].
    + intros _. simpl. by apply digits_tail_stops.
    + intros [Hc Hr]. rewrite !append_cons. cbn [digits_tail].
      by rewrite (is_digit_true _ Hc), IHr.
  - induction run as [|c r IHr].
    + intros _. rewrite !append_nil. cbn [runs_text].
      destruct (decimal_run _ Hnext) as (d & ds & -> & Hd & Hds).
      rewrite !append_cons. cbn [digits_tail].
      rewrite (is_digit_false _ (separator_no_digit _ Hsep)).
      rewrite (proj2 (is_sep_separator sep) Hsep).
      rewrite (is_digit_true _ Hd).
      by rewrite append_assoc, (IH ds Hds).
    + intros [Hc Hr]. rewrite !append_cons. cbn [digits_tail].
      by rewrite (is_digit_true _ Hc), IHr.
Qed.

Lemma capture_group_token first more rest :
  well_formed first more -> token_stops rest ->
  capture_group (token_text first more +:+ rest) = Some (token_text first more).
Proof.
  intros [Hfirst Hmore] Hrest. unfold token_text.
  destruct (decimal_run _ Hfirst) as (c & r & -> & Hc & Hr).
  rewrite append_assoc, !append_cons. cbn [capture_group].
  rewrite (is_digit_true _ Hc).
  by rewrite (digits_tail_token more rest Hmore Hrest r Hr).
Qed.

Lemma match_here_token u e m lead first more rest :
  marker u e m -> (forall c, lead = Some c -> separator c) ->
  well_formed first more -> token_stops rest ->
  match_here (marker_text u e m +:+ lead_text lead +:+ token_text first more +:+ rest)
  = Some (token_text first more).
Proof.
  intros (Hu & He & Hm) Hlead Hwf Hrest.
  pose proof (capture_group_token first more rest Hwf Hrest) as Hgroup.
  assert ((Ascii.eqb u "U" || Ascii.eqb u "u")
          && (Ascii.eqb e "E" || Ascii.eqb e "e")
          && Ascii.eqb "_" "_"
          && (Ascii.eqb m "5" || Ascii.eqb m "4") = true) as Hletters.
  { by destruct Hu as [-> | ->], He as [-> | ->], Hm as [-> | ->]. }
  unfold marker_text. rewrite !append_cons, append_nil.
  cbn [match_here]. rewrite Hletters.
  destruct lead as [c|].
  - cbn [lead_text]. rewrite append_cons, append_nil.
    rewrite (proj2 (is_sep_separator c) (Hlead c eq_refl)).
    exact Hgroup.
  - cbn [lead_text]. rewrite append_nil.
    destruct Hwf as [Hfirst _].
    destruct (decimal_run _ Hfirst) as (d & ds & -> & Hd & Hds).
    unfold token_text in *. rewrite !append_cons in *.
    rewrite (is_sep_false _ (digit_no_separator _ Hd)).
    exact Hgroup.
Qed.

Lemma match_here_third u e us s :
  Ascii.eqb us "_" = false ->
  match_here (String u (String e (String us s))) = None.
Proof.
  intros Hus. destruct s as [|m rest]; [done|]. cbn [match_here].
  by rewrite Hus, andb_false_r.
Qed.

Lemma path_match_skips pre u e s :
  ~ occurs_in "_" pre ->
  u <> "_"%char -> e <> "_"%char ->
  path_match (pre +:+ String u (String e s)) = path_match (String u (String e s)).
Proof.
  intros Hpre Hu He.
  induction pre as [|c pre IH]; [done|].
  rewrite append_cons, path_match_cons.
  assert (match_here (String c (pre +:+ String u (String e s))) = None) as ->.
  { destruct pre as [|x [|y pre']].
    - rewrite append_nil. apply match_here_third. by apply Ascii.eqb_neq.
    - rewrite append_cons, append_nil. apply match_here_third.
      by apply Ascii.eqb_neq.
    - rewrite !append_cons. apply match_here_third. apply Ascii.eqb_neq.
      intros ->. apply Hpre. simpl. tauto. }
  apply IH. intros Hin. apply Hpre. by right.
Qed.

Lemma path_match_token pre u e m lead first more rest :
  ~ occurs_in "_" pre ->
  marker u e m -> (forall c, lead = Some c -> separator c) ->
  well_formed first more -> token_stops rest ->
  path_match (pre +:+ marker_text u e m +:+ lead_text lead
                  +:+ token_text first more +:+ rest)
  = Some (token_text first more).
Proof.
  intros Hpre Hmarker Hlead Hwf Hrest.
  pose proof (match_here_token u e m lead first more rest
                Hmarker Hlead Hwf Hrest) as Hhere.
  unfold marker_text in *. rewrite !append_cons in *.
  rewrite path_match_skips.
  - rewrite path_match_cons. by rewrite Hhere.
  - done.
  - destruct Hmarker as ([-> | ->] & _); discriminate.
  - destruct Hmarker as (_ & [-> | ->] & _); discriminate.
Qed.

(** *** The token after [replace] and [split] *)

Lemma digit_not_underscore c : is_Some (digit_of c) -> Ascii.eqb c "_" = false.
Proof. intros [d Hd]. apply Ascii.eqb_neq. by intros ->. Qed.

Lemma digit_not_dot c : is_Some (digit_of c) -> Ascii.eqb c "." = false.
Proof. intros [d Hd]. apply Ascii.eqb_neq. by intros ->. Qed.

Lemma replace_first_underscore_token more :
  Forall (fun '(sep, run) => separator sep /\ is_Some (decimal run)) more ->
  forall run, digits_only run ->
    replace_first_underscore (run +:+ runs_text more)
    = run +:+ runs_text (dot_first_underscore more).
Proof.
  induction 1 as [|[sep next] more [Hsep Hnext] _ IH].
  - induction run as [|c r IHr]; [done|].
    intros [Hc Hr]. rewrite !append_cons. cbn [replace_first_underscore].
    by rewrite (digit_not_underscore _ Hc), IHr.
  - induction run as [|c r IHr].
    + intros _. rewrite !append_nil. cbn [runs_text dot_first_underscore].
      cbn [replace_first_underscore].
      destruct (Ascii.eqb sep "_") eqn:Hus; [done|].
      cbn [runs_text]. by rewrite (IH next (decimal_digits _ Hnext)).
    + intros [Hc Hr]. rewrite !append_cons. cbn [replace_first_underscore].
      by rewrite (digit_not_underscore _ Hc), IHr.
Qed.

Lemma dot_first_underscore_well_formed more :
  Forall (fun '(sep, run) => separator sep /\ is_Some (decimal run)) more ->
  Forall (fun '(sep, run) => separator sep /\ is_Some (decimal run))
         (dot_first_underscore more).
Proof.
  induction 1 as [|[sep next] more [Hsep Hnext] Hmore IH]; [constructor|].
  cbn [dot_first_underscore]. destruct (Ascii.eqb sep "_").
  - constructor; [|done]. split; [by left|done].
  - by constructor.
Qed.

Lemma occurs_in_app c s t :
  occurs_in c (s +:+ t) <-> occurs_in c s \/ occurs_in c t.
Proof.
  induction s as [|d r IH]; simpl; [tauto|]. rewrite IH. tauto.
Qed.

Lemma digits_no_dot s : digits_only s -> ~ occurs_in "." s.
Proof.
  induction s as [|c r IH]; [by intros _ []|].
  intros [[d Hd] Hr] [<-|Hin]; [discriminate|by apply IH].
Qed.

Lemma split_dot_plain s : ~ occurs_in "." s -> split_dot s = [s].
Proof.
  induction s as [|c r IH]; [done|]. intros Hs. cbn [split_dot].
  destruct (Ascii.eqb c ".") eqn:Hc.
  - apply Ascii.eqb_eq in Hc as ->. destruct Hs. by left.
  - rewrite IH; [done|]. intros Hin. apply Hs. by right.
Qed.

Lemma split_dot_app_dot s x :
  ~ occurs_in "." s -> split_dot (s +:+ String "." x) = s :: split_dot x.
Proof.
  induction s as [|c r IH]; [done|]. intros Hs.
  rewrite append_cons. cbn [split_dot].
  destruct (Ascii.eqb c ".") eqn:Hc.
  - apply Ascii.eqb_eq in Hc as ->. destruct Hs. by left.
  - rewrite IH; [done|]. intros Hin. apply Hs. by right.
Qed.

Lemma opens_no_dot seg head :
  digits_only head -> opens seg head -> ~ occurs_in "." seg.
Proof.
  intros Hhead (tail & -> & Htail & _) [Hin|Hin]%occurs_in_app.
  - by apply (digits_no_dot head).
  - done.
Qed.

Lemma opens_itself run : opens run run.
Proof.
  exists EmptyString. rewrite append_nil_r. split; [done|].
  split; [by intros []|by left].
Qed.

Lemma split_dot_token more :
  Forall (fun '(sep, run) => separator sep /\ is_Some (decimal run)) more ->
  forall seg head,
    digits_only head -> opens seg head ->
    Forall2 opens (split_dot (seg +:+ runs_text more)) (segment_heads head more).
Proof.
  unfold segment_heads.
  induction 1 as [|[sep next] more [Hsep Hnext] _ IH]; intros seg head Hhead Hseg.
  - cbn [runs_text later_heads]. rewrite append_nil_r.
    rewrite split_dot_plain by (by eapply opens_no_dot).
    by repeat constructor.
  - cbn [runs_text later_heads].
    destruct Hsep as [-> | ->].
    + change (Ascii.eqb "." ".") with true. cbv iota.
      rewrite split_dot_app_dot by (by eapply opens_no_dot).
      constructor; [done|].
      apply IH; [by apply decimal_digits|apply opens_itself].
    + change (Ascii.eqb "_" ".") with false. cbv iota.
      rewrite <- append_cons, <- append_assoc.
      apply IH; [done|].
      destruct Hseg as (tail & -> & Htail & Hstart).
      exists (tail +:+ String "_" next). split; [by rewrite append_assoc|].
      split.
      * intros [Hin|[[=]|Hin]]%occurs_in_app; [done|].
        by apply (digits_no_dot next (decimal_digits _ Hnext)).
      * right. destruct Hstart as [-> | [r ->]]; by eexists.
Qed.

(** *** The number of a piece *)

Lemma leading_number_run tail :
  (tail = EmptyString \/ exists r, tail = String "_" r) ->
  forall run acc,
    digits_only run ->
    leading_number 10 (Some acc) (run +:+ tail) = decimal_from acc run.
Proof.
  intros Htail. induction run as [|c r IH]; intros acc.
  - intros _. rewrite append_nil. by destruct Htail as [-> | [r ->]].
  - intros [[d Hd] Hr]. rewrite append_cons. cbn [leading_number decimal_from].
    rewrite digit_of_value, Hd. by apply IH.
Qed.

Lemma digit_no_space c : is_Some (digit_of c) -> is_space c = false.
Proof. intros [d Hd]. revert Hd. each_character c; done. Qed.

Lemma digit_no_sign c :
  is_Some (digit_of c) -> Ascii.eqb c "-" = false /\ Ascii.eqb c "+" = false.
Proof. intros [d Hd]. revert Hd. each_character c; done. Qed.

Lemma parseInt_opens seg head :
  is_Some (decimal head) -> opens seg head ->
  parseInt (Some seg) = decimal head.
Proof.
  intros Hhead (tail & -> & _ & Htail).
  destruct (decimal_run _ Hhead) as (c & r & -> & Hc & Hr).
  rewrite append_cons. unfold parseInt. cbn [skip_spaces].
  rewrite (digit_no_space _ Hc).
  destruct (digit_no_sign _ Hc) as [-> ->].
  assert (leading_number 10 None (String c (r +:+ tail))
          = decimal (String c r)) as Hnumber.
  { destruct Hc as [d Hd]. cbn [leading_number decimal decimal_from].
    rewrite digit_of_value, Hd. by apply leading_number_run. }
  assert (forall x : option Z, (fun m : Z => if false then - m else m) <$> x = x)
    as Hsign by (by intros []).
  destruct (r +:+ tail) as [|x rest] eqn:Hnext.
  - by rewrite Hsign, Hnumber.
  - assert (Ascii.eqb x "x" || Ascii.eqb x "X" = false) as ->.
    { destruct r as [|y r'].
      - rewrite append_nil in Hnext. destruct Htail as [-> | [t ->]]; [done|].
        by injection Hnext as <- _.
      - rewrite append_cons in Hnext. injection Hnext as <- _.
        destruct Hr as [[d Hd] _]. revert Hd. each_character y; done. }
    by rewrite andb_false_r, Hsign, Hnumber.
Qed.

Lemma stored_number segs heads :
  Forall2 opens segs heads ->
  Forall (fun head => is_Some (decimal head)) heads ->
  forall i d, num_or (parseInt (segs !! i)) d = stored (heads !! i) d.
Proof.
  intros Hopens Hheads i d.
  destruct (segs !! i) as [seg|] eqn:Hseg.
  - destruct (Forall2_lookup_l _ _ _ _ _ Hopens Hseg) as (head & Hhead & Hok).
    rewrite Hhead.
    pose proof (Forall_lookup_1 _ _ _ _ Hheads Hhead) as Hdecimal.
    rewrite (parseInt_opens _ _ Hdecimal Hok). unfold stored. simpl.
    destruct Hdecimal as [k ->]. by destruct k.
  - assert (heads !! i = None) as ->; [|done].
    apply lookup_ge_None. rewrite <- (Forall2_length _ _ _ Hopens).
    by apply lookup_ge_None.
Qed.

Lemma segment_heads_decimal first more :
  well_formed first more ->
  Forall (fun head => is_Some (decimal head)) (segment_heads first more).
Proof.
  intros [Hfirst Hmore]. constructor; [done|].
  induction Hmore as [|[sep next] more [_ Hnext] _ IH]; [constructor|].
  cbn [later_heads]. destruct (Ascii.eqb sep "."); [by constructor|done].
Qed.

(** What the heuristic reads off a path that holds a token. *)
Lemma version_of_path_token pre u e m lead first more rest :
  ~ occurs_in "_" pre ->
  marker u e m -> (forall c, lead = Some c -> separator c) ->
  well_formed first more -> token_stops rest ->
  version_of_path (pre +:+ marker_text u e m +:+ lead_text lead
                       +:+ token_text first more +:+ rest)
  = let heads := segment_heads first (dot_first_underscore more) in
    Some (token_text first (dot_first_underscore more),
          {| MajorVersion := stored (heads !! 0%nat) 5;
             MinorVersion := stored (heads !! 1%nat) 0;
             PatchVersion := stored (heads !! 2%nat) 0;
             Changelist := 0;
             CompatibleChangelist := 0;
             IsLicenseeVersion := 0;
             IsPromotedBuild := 0;
             BranchName := EmptyString;
             BuildId := EmptyString |}).
Proof.
  intros Hpre Hmarker Hlead Hwf Hrest.
  unfold version_of_path.
  rewrite (path_match_token _ _ _ _ _ _ _ _ Hpre Hmarker Hlead Hwf Hrest).
  destruct Hwf as [Hfirst Hmore].
  pose proof (decimal_digits _ Hfirst) as Hdigits.
  pose proof (dot_first_underscore_well_formed _ Hmore) as Hdotted.
  unfold token_text.
  rewrite (replace_first_underscore_token more Hmore first Hdigits).
  pose proof (split_dot_token _ Hdotted first first Hdigits (opens_itself first))
    as Hopens.
  pose proof (segment_heads_decimal first (dot_first_underscore more)
                (conj Hfirst Hdotted)) as Hheads.
  cbv zeta.
  by rewrite !(stored_number _ _ Hopens Hheads).
Qed.

(** *** Paths without the pattern *)

Lemma capture_group_digit s g :
  capture_group s = Some g ->
  exists d r, s = String d r /\ is_Some (digit_of d).
Proof.
  destruct s as [|d r]; [discriminate|]. cbn [capture_group].
  destruct (is_digit d) eqn:Hd; [|discriminate]. intros _.
  exists d, r. split; [done|].
  rewrite digit_of_is_digit in Hd. by apply bool_decide_eq_true in Hd.
Qed.

Lemma match_here_occurs s g :
  match_here s = Some g ->
  exists u e m lead d rest,
    s = marker_text u e m +:+ lead_text lead +:+ String d rest
    /\ marker u e m
    /\ (forall c, lead = Some c -> separator c)
    /\ is_Some (digit_of d).
Proof.
  destruct s as [|u [|e [|us [|m rest]]]]; try discriminate.
  cbn [match_here].
  destruct (_ && _) eqn:Hletters; [|discriminate].
  apply andb_true_iff in Hletters as [Hletters Hm].
  apply andb_true_iff in Hletters as [Hletters Hus].
  apply andb_true_iff in Hletters as [Hu He].
  apply Ascii.eqb_eq in Hus as ->.
  rewrite orb_true_iff, !Ascii.eqb_eq in Hu, He, Hm.
  destruct rest as [|c r]; [discriminate|].
  destruct (is_sep c) eqn:Hsep.
  - intros (d & r' & -> & Hd)%capture_group_digit.
    exists u, e, m, (Some c), d, r'. split; [done|]. split; [done|].
    split; [|done]. intros ? [= <-]. by apply is_sep_separator.
  - intros (d & r' & [= -> ->] & Hd)%capture_group_digit.
    exists u, e, m, None, d, r'. split; [done|]. split; [done|].
    split; [|done]. by intros ? [=].
Qed.

Lemma path_match_occurs s g : path_match s = Some g -> pattern_occurs s.
Proof.
  induction s as [|c r IH]; [discriminate|].
  rewrite path_match_cons.
  destruct (match_here (String c r)) as [g'|] eqn:Hhere.
  - intros _.
    destruct (match_here_occurs _ _ Hhere)
      as (u & e & m & lead & d & rest & Heq & Hmarker & Hlead & Hd).
    exists EmptyString, u, e, m, lead, d, rest. by rewrite append_nil.
  - intros (pre & u & e & m & lead & d & rest & -> & Hrest)%IH.
    by exists (String c pre), u, e, m, lead, d, rest.
Qed.

Lemma occurrence_matches u e m lead d rest :
  marker u e m -> (forall c, lead = Some c -> separator c) ->
  is_Some (digit_of d) ->
  is_Some (match_here (marker_text u e m +:+ lead_text lead +:+ String d rest)).
Proof.
  intros (Hu & He & Hm) Hlead Hd.
  assert ((Ascii.eqb u "U" || Ascii.eqb u "u")
          && (Ascii.eqb e "E" || Ascii.eqb e "e")
          && Ascii.eqb "_" "_"
          && (Ascii.eqb m "5" || Ascii.eqb m "4") = true) as Hletters.
  { by destruct Hu as [-> | ->], He as [-> | ->], Hm as [-> | ->]. }
  unfold marker_text. rewrite !append_cons, append_nil.
  cbn [match_here]. rewrite Hletters.
  destruct lead as [c|]; cbn [lead_text].
  - rewrite append_cons, append_nil.
    rewrite (proj2 (is_sep_separator c) (Hlead c eq_refl)).
    cbn [capture_group]. by rewrite (is_digit_true _ Hd).
  - rewrite append_nil. rewrite (is_sep_false _ (digit_no_separator _ Hd)).
    cbn [capture_group]. by rewrite (is_digit_true _ Hd).
Qed.

Lemma path_match_behind pre tail :
  is_Some (match_here tail) -> is_Some (path_match (pre +:+ tail)).
Proof.
  intros Hhere. induction pre as [|c pre IH].
  - rewrite append_nil. destruct tail as [|c r]; [by destruct Hhere|].
    rewrite path_match_cons. destruct Hhere as [g ->]. by eexists.
  - rewrite append_cons, path_match_cons.
    destruct (match_here (String c (pre +:+ tail))); [by eexists|done].
Qed.

Lemma pattern_occurs_matches p : pattern_occurs p <-> is_Some (path_match p).
Proof.
  split.
  - intros (pre & u & e & m & lead & d & rest & -> & Hmarker & Hlead & Hd).
    apply path_match_behind. by apply occurrence_matches.
  - intros [g Hg]. by eapply path_match_occurs.
Qed.

End PathToken.




(** What the heuristic reads: the digits after the marker. *)
Example heuristic_reads_after_marker :
  let loaded := loadEngineVersionInfo Scenario.nothing_installed
                  (Sample.installation (JStr "D:/Engines/UE_5.3_2") "UE_5" "Unreal") in
  (displayName loaded,
   (fun v => (MajorVersion v, MinorVersion v, PatchVersion v)) <$> version loaded)
  = ("UE 3.2", Some (3, 2, 0)).
Proof. vm_compute. reflexivity. Qed.

(** A first segment of zero is falsy and takes the default as well. *)
Example heuristic_zero_segment :
  let loaded := loadEngineVersionInfo Scenario.nothing_installed
                  (Sample.installation (JStr "D:/Engines/UE_5.0.3") "UE_5" "Unreal") in
  (displayName loaded,
   (fun v => (MajorVersion v, MinorVersion v, PatchVersion v)) <$> version loaded)
  = ("UE 0.3", Some (5, 3, 0)).
Proof. vm_compute. reflexivity. Qed.

(** No digits after the marker: the pattern fails and nothing changes. *)
Example heuristic_no_match :
  loadEngineVersionInfo Scenario.nothing_installed
    (Sample.installation (JStr "D:/Engines/UE_5/Engine") "UE_5" "Unreal")
  = Sample.installation (JStr "D:/Engines/UE_5/Engine") "UE_5" "Unreal".
Proof. vm_compute. reflexivity. Qed.

(** * Further properties of the resolver's code *)

(** ** compareVersions as an order *)

(** X1: the comparator is consistent, as [Array.prototype.sort] asks of
    it: equal arguments compare [0], swapping the arguments swaps the
    sign, and the order is transitive. *)
Theorem compareVersions_consistent (a b c : option EngineVersionInfo) :
  compareVersions a a = 0
  /\ (compareVersions a b < 0 <-> 0 < compareVersions b a)
  /\ (compareVersions a b = 0 <-> compareVersions b a = 0)
  /\ (compareVersions a b <= 0 -> compareVersions b c <= 0 ->
      compareVersions a c <= 0)
  /\ (compareVersions a b = 0 -> compareVersions b c = 0 ->
      compareVersions a c = 0).
Proof.
  split; [compare_cases|].
  split; [compare_cases|].
  split; [compare_cases|].
  split; [apply compareVersions_trans|].
  compare_cases.
Qed.

(** X2: two versions compare equal exactly when they agree on major,
    minor, patch and changelist; no other field is consulted. *)
Theorem compareVersions_zero_iff (a b : EngineVersionInfo) :
  compareVersions (Some a) (Some b) = 0
  <-> MajorVersion a = MajorVersion b
      /\ MinorVersion a = MinorVersion b
      /\ PatchVersion a = PatchVersion b
      /\ Changelist a = Changelist b.
Proof.
  unfold compareVersions.
  repeat match goal with
         | |- context [?x =? ?y] => destruct (Z.eqb_spec x y); simpl
         end; lia.
Qed.

(** ** The fallback choice *)

(** The head of the sorted array is the first, in the order before the
    sort, of the elements it ties with: everything in front of it had to
    give way. *)
Lemma Array_sort_head_first {A : Type} (cmp : A -> A -> Z) (l : list A) :
  forall first rest,
    Array_sort cmp l = first :: rest ->
    exists pre post,
      l = pre ++ first :: post /\ forall c, c ∈ pre -> 0 < cmp c first.
Proof.
  induction l as [|x l IH]; intros first rest Hsort; [discriminate|].
  unfold Array_sort in *. simpl in Hsort.
  destruct (foldr (insert_sorted cmp) [] l) as [|y r] eqn:Htail.
  - simpl in Hsort. injection Hsort as <- <-.
    exists [], l. split; [done|]. intros c Hc. by apply elem_of_nil in Hc.
  - simpl in Hsort. destruct (Z.leb_spec (cmp x y) 0) as [Hle|Hgt].
    + injection Hsort as <- <-.
      exists [], l. split; [done|]. intros c Hc. by apply elem_of_nil in Hc.
    + injection Hsort as <- <-.
      destruct (IH y r eq_refl) as (pre & post & -> & Hpre).
      exists (x :: pre), post. split; [done|].
      intros c Hc. apply elem_of_cons in Hc as [->|Hc]; [lia|by apply Hpre].
Qed.



(** Without any version metadata the order of discovery decides. *)
Example fallback_without_versions :
  engine (resolveEngine (Sample.host None [] [Sample.guid1; Sample.guid2] []) None)
  = Some Sample.guid1.
Proof. vm_compute. reflexivity. Qed.

(** ** Warnings *)

(** X4: the reader answers in one of two ways: an association whose
    [guid] and [name] are the same truthy value, with no warning; or no
    association and exactly one warning that says why. *)
Theorem reader_warns_once h p :
  (exists v,
      getEngineAssociationFromProject h p
      = (Some {| guid := v; name := v |}, [])
      /\ truthy v = true)
  \/ (exists w, getEngineAssociationFromProject h p = (None, [w])).
Proof.
  unfold getEngineAssociationFromProject, association_try, locate_uproject, bind.
  repeat case_match; simplify_eq;
    first [ right; by eexists
          | left; eexists; split; [reflexivity|by apply negb_false_iff] ].
Qed.

(** X5: the warnings of the reader open the result's warnings whatever
    happens next, an error included; the resolver adds at most two of its
    own; and a result without error carries the reader's association. *)
Theorem resolveEngine_keeps_reader_warnings h pp :
  exists added,
    warnings (resolveEngine h pp) = (project_association h pp).2 ++ added
    /\ (length added <= 2)%nat
    /\ (error (resolveEngine h pp) = None ->
        uprojectEngine (resolveEngine h pp) = (project_association h pp).1).
Proof.
  destruct (project_association h pp) as [assoc ws] eqn:Hassoc. simpl.
  destruct (findEngineInstallations h) as [cands|msg] eqn:Hfind.
  - destruct (decide (cands = [])) as [->|Hne].
    + exists []. unfold resolveEngine, resolve_try. rewrite Hassoc, Hfind. simpl.
      destruct assoc; simpl; rewrite app_nil_r; (split; [done|split; [lia|done]]).
    + destruct (Array_sort newest_first cands) as [|first rest] eqn:Hsort.
      { by apply Array_sort_nonempty in Hsort. }
      destruct assoc as [a|].
      * destruct (find (fun c => strict_eq (associationId c) (guid a)) cands)
          as [e|] eqn:Hmatch.
        -- exists []. rewrite (resolve_try_matched _ _ _ _ _ _ Hassoc Hfind Hmatch).
           simpl. rewrite app_nil_r. split; [done|split; [lia|done]].
        -- destruct (toString (guid a)) as [text|msg] eqn:Htext.
           ++ destruct (resolve_try_fallback _ _ _ _ _ _
                          Hassoc Hfind Hne Hmatch Htext)
                as (first' & rest' & _ & ->).
              eexists. simpl. split; [reflexivity|]. simpl.
              split; [lia|done].
           ++ exists []. unfold resolveEngine.
              rewrite (resolve_try_unprintable _ _ _ _ _ _
                         Hassoc Hfind Hne Hmatch Htext).
              simpl. rewrite app_nil_r. split; [done|split; [lia|discriminate]].
      * exists [fallback_warning first].
        unfold resolveEngine, resolve_try. rewrite Hassoc, Hfind.
        rewrite (nonempty_length _ Hne), Hsort. simpl.
        split; [done|split; [lia|done]].
  - exists []. unfold resolveEngine, resolve_try. rewrite Hassoc, Hfind. simpl.
    rewrite app_nil_r. split; [done|split; [lia|discriminate]].
Qed.



(** ** The reader on a directory *)

Lemma filter_uproject_first pre f post :
  Forall (fun g => endsWith g uproject_ext = false) pre ->
  endsWith f uproject_ext = true ->
  filter (fun g => endsWith g uproject_ext = true) (pre ++ f :: post)
  = f :: filter (fun g => endsWith g uproject_ext = true) post.
Proof.
  intros Hpre Hf. induction Hpre as [|g pre Hg _ IH]; simpl.
  - by rewrite filter_cons_True.
  - rewrite filter_cons_False; [done|]. congruence.
Qed.

(** X7: given a directory, the reader takes the first entry that ends in
    [.uproject], in the order [readdir] lists them, and answers as it does
    when called on that file, provided the joined path is not itself a
    directory. *)
Theorem reader_directory_first_descriptor h p pre f post :
  fs_pathExists h p = true ->
  fs_stat_isDirectory h p = Ok true ->
  fs_readdir h p = Ok (pre ++ f :: post) ->
  Forall (fun g => endsWith g uproject_ext = false) pre ->
  endsWith f uproject_ext = true ->
  locate_uproject h (path_join h [p; f]) = Ok (inr (path_join h [p; f])) ->
  getEngineAssociationFromProject h p
  = getEngineAssociationFromProject h (path_join h [p; f]).
Proof.
  intros Hexists Hdir Hfiles Hpre Hf Hfile.
  assert (locate_uproject h p = Ok (inr (path_join h [p; f]))) as Hloc.
  { unfold locate_uproject. rewrite Hexists, Hdir. simpl. rewrite Hfiles. simpl.
    by rewrite filter_uproject_first. }
  unfold getEngineAssociationFromProject, association_try.
  by rewrite Hloc, Hfile.
Qed.

Lemma reader_directory_first_descriptor_witness :
  getEngineAssociationFromProject project_directory_host "Project"
  = getEngineAssociationFromProject project_directory_host
      (path_join project_directory_host ["Project"; "Game.uproject"]).
Proof.
  apply (reader_directory_first_descriptor project_directory_host "Project"
           ["Content"] "Game.uproject" ["Old.uproject"]).
  - reflexivity.
  - reflexivity.
  - reflexivity.
  - repeat constructor.
  - reflexivity.
  - reflexivity.
Defined.

Example reader_directory_association :
  getEngineAssociationFromProject project_directory_host "Project"
  = (Some {| guid := JStr "{GUID-1}"; name := JStr "{GUID-1}" |}, []).
Proof. vm_compute. reflexivity. Qed.

(** ** The version loader *)

(** X8: the loader touches nothing but [version] and [displayName], never
    removes a version, leaves an installation it finds no version for as
    it was, and a second run changes nothing. *)
Theorem loadEngineVersionInfo_settles h e :
  path (loadEngineVersionInfo h e) = path e
  /\ associationId (loadEngineVersionInfo h e) = associationId e
  /\ installedDate (loadEngineVersionInfo h e) = installedDate e
  /\ (is_Some (version e) -> is_Some (version (loadEngineVersionInfo h e)))
  /\ (version (loadEngineVersionInfo h e) = None -> loadEngineVersionInfo h e = e)
  /\ loadEngineVersionInfo h (loadEngineVersionInfo h e) = loadEngineVersionInfo h e.
Proof.
  split; [apply loadEngineVersionInfo_path|].
  split; [apply loadEngineVersionInfo_associationId|].
  unfold loadEngineVersionInfo.
  destruct (path e) as [| | | |p| |] eqn:Hp; try (by rewrite ?Hp).
  destruct (first_version_file h _) as [v|] eqn:Hfile.
  - simpl in Hfile |- *. rewrite Hp. simpl. rewrite Hfile.
    repeat split; done.
  - destruct (version_of_path p) as [[s v]|] eqn:Hpath.
    + simpl in Hfile |- *. rewrite Hp. simpl. rewrite Hfile, Hpath.
      repeat split; done.
    + rewrite Hp, Hfile, Hpath. done.
Qed.

(** X9: a version descriptor that loads decides the version and the
    display name, the editor's before [Build.version], and both before
    anything the path suggests. *)
Theorem loadEngineVersionInfo_descriptor_priority h e p v :
  path e = JStr p ->
  read_version_file h
    (path_join h [p; "Engine"; "Binaries"; "Win64"; "UnrealEditor.version"]) = Some v
  \/ (read_version_file h
        (path_join h [p; "Engine"; "Binaries"; "Win64"; "UnrealEditor.version"]) = None
      /\ read_version_file h
           (path_join h [p; "Engine"; "Build"; "Build.version"]) = Some v) ->
  version (loadEngineVersionInfo h e) = Some v
  /\ displayName (loadEngineVersionInfo h e)
     = "UE " +:+ pretty (MajorVersion v) +:+ "." +:+ pretty (MinorVersion v)
            +:+ "." +:+ pretty (PatchVersion v).
Proof.
  intros Hp Hread. unfold loadEngineVersionInfo. rewrite Hp. simpl.
  destruct Hread as [-> | [-> ->]]; done.
Qed.

Lemma loadEngineVersionInfo_descriptor_priority_witness :
  version (loadEngineVersionInfo
             (Sample.host None
                [(Sample.build_version "D:/Engines/UE_5.3", Sample.release 5 4 1)] [] [])
             (Sample.installation (JStr "D:/Engines/UE_5.3") "UE_5" "Unreal"))
  = Some (Sample.release 5 4 1)
  /\ displayName (loadEngineVersionInfo
             (Sample.host None
                [(Sample.build_version "D:/Engines/UE_5.3", Sample.release 5 4 1)] [] [])
             (Sample.installation (JStr "D:/Engines/UE_5.3") "UE_5" "Unreal"))
     = "UE " +:+ pretty (MajorVersion (Sample.release 5 4 1))
            +:+ "." +:+ pretty (MinorVersion (Sample.release 5 4 1))
            +:+ "." +:+ pretty (PatchVersion (Sample.release 5 4 1)).
Proof.
  apply (loadEngineVersionInfo_descriptor_priority
           (Sample.host None
              [(Sample.build_version "D:/Engines/UE_5.3", Sample.release 5 4 1)] [] [])
           (Sample.installation (JStr "D:/Engines/UE_5.3") "UE_5" "Unreal")
           "D:/Engines/UE_5.3" (Sample.release 5 4 1)).
  - reflexivity.
  - right. split; vm_compute; reflexivity.
Defined.

(** ** The version read off the path *)

Section PathVersion.
Import PathPattern.

Lemma digits_tail_chars s : string_forallb group_char (digits_tail s) = true.
Proof.
  induction s as [|c r IH]; [done|]. simpl.
  destruct (is_digit c) eqn:Hd.
  - simpl. unfold group_char at 1. by rewrite Hd.
  - destruct (is_sep c) eqn:Hs; [|done].
    destruct r as [|d r']; [done|].
    destruct (is_digit d) eqn:Hd'; [|done].
    cbn [string_forallb]. unfold group_char at 1. rewrite Hs, orb_true_r. done.
Qed.

Lemma capture_group_chars s g :
  capture_group s = Some g -> string_forallb group_char g = true.
Proof.
  destruct s as [|c r]; [discriminate|]. simpl.
  destruct (is_digit c) eqn:Hd; [|discriminate].
  intros [= <-]. simpl. unfold group_char at 1. rewrite Hd. simpl.
  apply digits_tail_chars.
Qed.

Lemma match_here_chars s g :
  match_here s = Some g -> string_forallb group_char g = true.
Proof.
  unfold match_here. repeat case_match; try discriminate;
    apply capture_group_chars.
Qed.

Lemma path_match_chars s g :
  path_match s = Some g -> string_forallb group_char g = true.
Proof.
  induction s as [|c r IH]; [discriminate|].
  rewrite path_match_cons.
  destruct (match_here (String c r)) eqn:Hm.
  - intros [= <-]. by eapply match_here_chars.
  - apply IH.
Qed.

Lemma replace_first_underscore_chars s :
  string_forallb group_char s = true ->
  string_forallb group_char (replace_first_underscore s) = true.
Proof.
  induction s as [|c r IH]; [done|]. simpl.
  intros [Hc Hr]%andb_true_iff.
  destruct (Ascii.eqb c "_"); simpl; [done|].
  by rewrite Hc, IH.
Qed.

Lemma split_dot_nonempty s : split_dot s <> [].
Proof.
  induction s as [|c r IH]; simpl; [done|].
  destruct (Ascii.eqb c "."); [done|]. by destruct (split_dot r).
Qed.

Lemma split_dot_chars s :
  string_forallb group_char s = true ->
  Forall (fun seg => string_forallb segment_char seg = true) (split_dot s).
Proof.
  induction s as [|c r IH]; simpl.
  - intros _. by repeat constructor.
  - intros [Hc Hr]%andb_true_iff. specialize (IH Hr).
    destruct (Ascii.eqb c ".") eqn:Hdot.
    + by constructor.
    + destruct (split_dot r) as [|seg more] eqn:Hsplit.
      { by destruct (split_dot_nonempty r). }
      apply Forall_cons in IH as [Hseg Hmore].
      constructor; [|done]. simpl. rewrite Hseg, andb_true_r.
      unfold group_char, is_sep in Hc. unfold segment_char.
      rewrite Hdot in Hc. done.
Qed.

(** Nothing in a segment is a space, a sign or the [x] of a hexadecimal
    prefix. *)
Lemma segment_char_plain c :
  segment_char c = true ->
  is_space c = false
  /\ Ascii.eqb c "-" = false /\ Ascii.eqb c "+" = false
  /\ Ascii.eqb c "x" = false /\ Ascii.eqb c "X" = false.
Proof.
  destruct c as [[] [] [] [] [] [] [] []]; vm_compute; try discriminate; done.
Qed.

Lemma parseInt_segment seg :
  string_forallb segment_char seg = true ->
  parseInt (Some seg) = leading_number 10 None seg.
Proof.
  destruct seg as [|c r]; [done|].
  cbn [string_forallb]. intros [Hc Hr]%andb_true_iff.
  destruct (segment_char_plain c Hc) as (Hsp & Hminus & Hplus & _).
  unfold parseInt. cbn [skip_spaces]. rewrite Hsp, Hminus, Hplus.
  assert (match String c r with
          | String z (String x r0) =>
              if Ascii.eqb z "0" && (Ascii.eqb x "x" || Ascii.eqb x "X")
              then leading_number 16 None r0
              else leading_number 10 None (String c r)
          | _ => leading_number 10 None (String c r)
          end = leading_number 10 None (String c r)) as ->.
  { destruct r as [|x r']; [done|].
    cbn [string_forallb] in Hr. apply andb_true_iff in Hr as [Hx _].
    destruct (segment_char_plain x Hx) as (_ & _ & _ & Hlow & Hup).
    by rewrite Hlow, Hup, andb_false_r. }
  by destruct (leading_number 10 None (String c r)).
Qed.

Lemma digit_value_nonneg c d : digit_value 10 c = Some d -> 0 <= d.
Proof.
  unfold digit_value.
  destruct (_ && _) eqn:Hrange; [|discriminate].
  apply andb_true_iff in Hrange as [Hlow _]. intros [= <-]. lia.
Qed.

Lemma leading_number_nonneg s : forall acc n,
  (forall a, acc = Some a -> 0 <= a) ->
  leading_number 10 acc s = Some n -> 0 <= n.
Proof.
  induction s as [|c r IH]; intros acc n Hacc; simpl.
  - apply Hacc.
  - destruct (digit_value 10 c) as [d|] eqn:Hd; [|apply Hacc].
    apply IH. intros a [= <-].
    apply digit_value_nonneg in Hd.
    destruct acc as [a0|]; simpl; [specialize (Hacc a0 eq_refl)|]; lia.
Qed.

Lemma parseInt_lookup_nonneg segments i n :
  Forall (fun seg => string_forallb segment_char seg = true) segments ->
  parseInt (segments !! i) = Some n -> 0 <= n.
Proof.
  intros Hall.
  destruct (segments !! i) as [seg|] eqn:Hseg; [|discriminate].
  rewrite parseInt_segment.
  - apply leading_number_nonneg. discriminate.
  - eapply Forall_forall in Hall; [exact Hall|].
    by eapply list_elem_of_lookup_2.
Qed.

Lemma num_or_bounds n d :
  (forall k, n = Some k -> 0 <= k) -> 0 <= d ->
  0 <= num_or n d /\ (0 < d -> 0 < num_or n d).
Proof.
  intros Hn Hd. destruct n as [[|k|k]|]; simpl; try lia.
  specialize (Hn _ eq_refl). lia.
Qed.

End PathVersion.

(** X10: a version taken from the path has a major number of at least 1
    and a minor and a patch number of at least 0. *)
Theorem loadEngineVersionInfo_path_version_bounds h e p v :
  path e = JStr p ->
  read_version_file h
    (path_join h [p; "Engine"; "Binaries"; "Win64"; "UnrealEditor.version"]) = None ->
  read_version_file h (path_join h [p; "Engine"; "Build"; "Build.version"]) = None ->
  version (loadEngineVersionInfo h e) = Some v ->
  version e = None ->
  1 <= MajorVersion v /\ 0 <= MinorVersion v /\ 0 <= PatchVersion v.
Proof.
  intros Hp Heditor Hbuild Hv Hnone.
  unfold loadEngineVersionInfo in Hv. rewrite Hp in Hv.
  unfold first_version_file in Hv. rewrite Heditor, Hbuild in Hv.
  unfold version_of_path in Hv.
  destruct (PathPattern.path_match p) as [group|] eqn:Hmatch;
    [|congruence].
  simpl in Hv. injection Hv as <-. simpl.
  assert (Forall (fun seg => string_forallb segment_char seg = true)
            (PathPattern.split_dot (PathPattern.replace_first_underscore group)))
    as Hsegs.
  { apply split_dot_chars, replace_first_underscore_chars.
    by eapply path_match_chars. }
  pose proof (fun i k => parseInt_lookup_nonneg _ i k Hsegs) as Hnonneg.
  destruct (num_or_bounds (PathPattern.parseInt
              (PathPattern.split_dot (PathPattern.replace_first_underscore group) !! 0%nat))
              5 (Hnonneg 0%nat)) as [_ Hmajor]; [lia|].
  destruct (num_or_bounds (PathPattern.parseInt
              (PathPattern.split_dot (PathPattern.replace_first_underscore group) !! 1%nat))
              0 (Hnonneg 1%nat)) as [Hminor _]; [lia|].
  destruct (num_or_bounds (PathPattern.parseInt
              (PathPattern.split_dot (PathPattern.replace_first_underscore group) !! 2%nat))
              0 (Hnonneg 2%nat)) as [Hpatch _]; [lia|].
  lia.
Qed.

Lemma loadEngineVersionInfo_path_version_bounds_witness :
  1 <= 3 /\ 0 <= 2 /\ 0 <= 0.
Proof.
  apply (loadEngineVersionInfo_path_version_bounds Scenario.nothing_installed
           (Sample.installation (JStr "D:/Engines/UE_5.3_2") "UE_5" "Unreal")
           "D:/Engines/UE_5.3_2"
           {| MajorVersion := 3; MinorVersion := 2; PatchVersion := 0;
              Changelist := 0; CompatibleChangelist := 0;
              IsLicenseeVersion := 0; IsPromotedBuild := 0;
              BranchName := EmptyString; BuildId := EmptyString |});
    reflexivity.
Defined.

(** ** The environment probe *)

Lemma environment_loop_first h env names :
  match Probe.environment_loop h env names with
  | Some e =>
      exists pre envVar post enginePath,
        names = pre ++ envVar :: post
        /\ (forall v, v ∈ pre -> ~ usable_variable h env v)
        /\ env envVar = Some enginePath
        /\ enginePath <> EmptyString
        /\ fs_pathExists h enginePath = true
        /\ e = Probe.environment_installation envVar enginePath
  | None => forall v, v ∈ names -> ~ usable_variable h env v
  end.
Proof.
  induction names as [|envVar rest IH]; simpl.
  - intros v Hv. by apply elem_of_nil in Hv.
  - assert (forall enginePath, env envVar = Some enginePath ->
              negb (String.eqb enginePath EmptyString)
              && fs_pathExists h enginePath = false ->
              ~ usable_variable h env envVar) as Hunusable.
    { intros enginePath Henv Hno (p & Hp & Hne & Hex).
      rewrite Henv in Hp. injection Hp as <-.
      apply String.eqb_neq in Hne. by rewrite Hne, Hex in Hno. }
    assert (~ usable_variable h env envVar ->
            match Probe.environment_loop h env rest with
            | Some e =>
                exists pre envVar0 post enginePath,
                  envVar :: rest = pre ++ envVar0 :: post
                  /\ (forall v, v ∈ pre -> ~ usable_variable h env v)
                  /\ env envVar0 = Some enginePath
                  /\ enginePath <> EmptyString
                  /\ fs_pathExists h enginePath = true
                  /\ e = Probe.environment_installation envVar0 enginePath
            | None => forall v, v ∈ envVar :: rest -> ~ usable_variable h env v
            end) as Hrest.
    { intros Hno. destruct (Probe.environment_loop h env rest) as [e|].
      - destruct IH as (pre & v0 & post & p & -> & Hpre & Hrest).
        exists (envVar :: pre), v0, post, p. split; [done|]. split; [|done].
        intros v Hv. apply elem_of_cons in Hv as [->|Hv]; [done|by apply Hpre].
      - intros v Hv. apply elem_of_cons in Hv as [->|Hv]; [done|by apply IH]. }
    destruct (env envVar) as [enginePath|] eqn:Henv.
    + destruct (negb (String.eqb enginePath EmptyString)
                && fs_pathExists h enginePath) eqn:Huse.
      * apply andb_true_iff in Huse as [Hne Hex].
        exists [], envVar, rest, enginePath. split; [done|].
        split; [intros v Hv; by apply elem_of_nil in Hv|].
        split; [done|]. split; [|done].
        apply negb_true_iff in Hne. by apply String.eqb_neq.
      * apply Hrest. by eapply Hunusable.
    + apply Hrest. intros (p & Hp & _). congruence.
Qed.

(** X11: the environment probe returns the installation of the first of
    [UE_ENGINE_PATH], [UE_ROOT], [UNREAL_ENGINE_PATH] that is set, not
    empty and names an existing path, tagged with that variable; no
    variable after it is looked at, and without such a variable there is
    no installation. *)
Theorem getEngineFromEnvironment_first_usable h env :
  match Probe.getEngineFromEnvironment h env with
  | Some e =>
      exists pre envVar post enginePath,
        Probe.envVars = pre ++ envVar :: post
        /\ (forall v, v ∈ pre -> ~ usable_variable h env v)
        /\ env envVar = Some enginePath
        /\ enginePath <> EmptyString
        /\ fs_pathExists h enginePath = true
        /\ e = Probe.environment_installation envVar enginePath
  | None => forall v, v ∈ Probe.envVars -> ~ usable_variable h env v
  end.
Proof. apply environment_loop_first. Qed.

Example environment_priority :
  Probe.getEngineFromEnvironment linux_host linux_env
  = Some (Probe.environment_installation "UE_ROOT" "/opt/UnrealEngine").
Proof. vm_compute. reflexivity. Qed.

Lemma environment_loop_shape h env names e :
  Probe.environment_loop h env names = Some e ->
  exists envVar enginePath,
    envVar ∈ names /\ e = Probe.environment_installation envVar enginePath.
Proof.
  pose proof (environment_loop_first h env names) as Hfirst.
  intros He. rewrite He in Hfirst.
  destruct Hfirst as (pre & envVar & post & p & -> & _ & _ & _ & _ & ->).
  exists envVar, p. split; [|done].
  apply elem_of_app. right. by left.
Qed.

(** X12: off Windows only the environment probe runs: discovery throws
    nothing and returns at most one candidate, which carries the tag of an
    environment variable; a resolution then ends in an error only when the
    project's association cannot be converted to text for the warning, and
    the error is the message of that conversion. *)
Theorem discovery_off_windows h env pp :
  Platform_isWindows h = false ->
  getEngineFromEnvironment h = Probe.getEngineFromEnvironment h env ->
  exists cands,
    findEngineInstallations h = Ok cands
    /\ (length cands <= 1)%nat
    /\ (forall e, e ∈ cands ->
          exists envVar, envVar ∈ Probe.envVars
                         /\ associationId e = "ENV_" +:+ envVar)
    /\ (forall msg, error (resolveEngine h pp) = Some msg ->
          exists a, (project_association h pp).1 = Some a
                    /\ toString (guid a) = Throw msg).
Proof.
  intros Hwin Henv.
  assert (exists cands,
            findEngineInstallations h = Ok cands
            /\ (length cands <= 1)%nat
            /\ (forall e, e ∈ cands ->
                  exists envVar, envVar ∈ Probe.envVars
                                 /\ associationId e = "ENV_" +:+ envVar))
    as (cands & Hfind & Hlen & Htag).
  { unfold findEngineInstallations, probe_results. rewrite Hwin, Henv.
    destruct (Probe.getEngineFromEnvironment h env) as [e|] eqn:Hprobe.
    - destruct (environment_loop_shape _ _ _ _ Hprobe) as (envVar & p & Hin & ->).
      exists [loadEngineVersionInfo h (Probe.environment_installation envVar p)].
      split; [reflexivity|]. split; [simpl; lia|].
      intros e He. apply list_elem_of_singleton in He as ->.
      exists envVar. split; [done|].
      by rewrite loadEngineVersionInfo_associationId.
    - exists []. split; [reflexivity|]. split; [simpl; lia|].
      intros e He. by apply elem_of_nil in He. }
  exists cands. split; [done|]. split; [done|]. split; [done|].
  intros msg Herr.
  pose proof (resolveEngine_cases h pp) as Hcases. rewrite Hfind in Hcases.
  destruct Hcases as [Hempty Hsome].
  destruct (decide (cands = [])) as [Hnil|Hne].
  - rewrite (Hempty Hnil) in Herr. discriminate.
  - destruct (Hsome Hne) as [(e & _ & _ & Hnone)|(a & msg' & Ha & _ & Htext & Hres)].
    + congruence.
    + rewrite Hres in Herr. injection Herr as <-. by exists a.
Qed.

Lemma discovery_off_windows_witness :
  exists cands,
    findEngineInstallations linux_host = Ok cands
    /\ (length cands <= 1)%nat
    /\ (forall e, e ∈ cands ->
          exists envVar, envVar ∈ Probe.envVars
                         /\ associationId e = "ENV_" +:+ envVar)
    /\ (forall msg, error (resolveEngine linux_host None) = Some msg ->
          exists a, (project_association linux_host None).1 = Some a
                    /\ toString (guid a) = Throw msg).
Proof.
  apply (discovery_off_windows linux_host linux_env None); reflexivity.
Defined.

(** ** The launcher probe *)

Section Launcher.
Import LauncherManifest.

Lemma is_engine_app_tag appName :
  is_engine_app appName = true ->
  app_tag appName = "UE_4" \/ app_tag appName = "UE_5".
Proof.
  unfold is_engine_app. intros [H4|H5]%orb_true_iff.
  - apply strict_eq_true in H4 as ->. by left.
  - apply strict_eq_true in H5 as ->. by right.
Qed.

Lemma visit_tag installation pushed :
  visit installation = Ok (Some pushed) ->
  pushed_associationId pushed = "UE_4" \/ pushed_associationId pushed = "UE_5".
Proof.
  unfold visit, bind.
  destruct (get_prop installation "AppName") as [appName|]; [|discriminate].
  destruct (is_engine_app appName) eqn:Happ; [|discriminate].
  repeat case_match; try discriminate; intros [= <-]; simpl;
    by apply is_engine_app_tag.
Qed.

Lemma installation_loop_tags items :
  Forall (fun p => pushed_associationId p = "UE_4" \/ pushed_associationId p = "UE_5")
         (installation_loop items).
Proof.
  induction items as [|installation rest IH]; simpl; [constructor|].
  destruct (visit installation) as [[pushed|]|] eqn:Hvisit;
    [|done|constructor].
  constructor; [by eapply visit_tag|done].
Qed.

Lemma read_manifest_tags h manifestPath :
  Forall (fun p => pushed_associationId p = "UE_4" \/ pushed_associationId p = "UE_5")
         (read_manifest h manifestPath).
Proof.
  unfold read_manifest, installations_of.
  repeat case_match; try constructor. apply installation_loop_tags.
Qed.

Lemma visit_object_skipped fields :
  is_engine_app (lookup_field "AppName" fields) = false ->
  visit (JObj fields) = Ok None.
Proof. intros Happ. unfold visit, bind. simpl. by rewrite Happ. Qed.

Lemma visit_object_pushed fields pushed :
  is_engine_app (lookup_field "AppName" fields) = true ->
  manifest_entry fields = Some pushed ->
  visit (JObj fields) = Ok (Some pushed).
Proof.
  intros Happ. unfold visit, bind, manifest_entry. simpl. rewrite Happ.
  destruct (truthy (lookup_field "DisplayName" fields)).
  - by intros [= <-].
  - destruct (toString (lookup_field "AppVersion" fields)); [|discriminate].
    by intros [= <-].
Qed.

Lemma installation_loop_objects entries :
  forall pushed,
    mapM manifest_entry
      (filter (fun fields => is_engine_app (lookup_field "AppName" fields) = true)
              entries) = Some pushed ->
    installation_loop (JObj <$> entries) = pushed.
Proof.
  induction entries as [|fields rest IH]; intros pushed.
  - by intros [= <-].
  - rewrite fmap_cons, filter_cons. cbn [installation_loop].
    destruct (is_engine_app (lookup_field "AppName" fields)) eqn:Happ.
    + rewrite decide_True by done. intros Hall.
      apply mapM_Some_1 in Hall.
      inversion Hall as [|? p ? tail Hentry Htail]; subst.
      rewrite (visit_object_pushed _ _ Happ Hentry).
      f_equal. apply IH. by apply mapM_Some_2.
    + rewrite decide_False by (by intros ?).
      rewrite (visit_object_skipped _ Happ). apply IH.
Qed.

End Launcher.

(** X13: every installation the launcher probe returns carries the
    association id [UE_4] or [UE_5], whatever the manifests hold. *)
Theorem getEnginesFromLauncher_tags h env :
  Forall (fun p => LauncherManifest.pushed_associationId p = "UE_4"
                   \/ LauncherManifest.pushed_associationId p = "UE_5")
         (Probe.getEnginesFromLauncher h env).
Proof.
  unfold Probe.getEnginesFromLauncher. simpl.
  rewrite app_nil_r. apply Forall_app. split; apply read_manifest_tags.
Qed.

(** X14: for a manifest that reads and parses to an object whose
    [InstallationList] is an array of objects, of which every entry with
    the [AppName] [UE_4] or [UE_5] has a truthy [DisplayName] or an
    [AppVersion] that converts to text, the probe pushes, in the order of
    the list, one installation for each such entry: path
    [InstallLocation], display name [DisplayName] or, when that is falsy,
    [UE] and the [AppVersion]. *)
Theorem read_manifest_filters h manifestPath content fields entries pushed :
  fs_pathExists h manifestPath = true ->
  fs_readFile h manifestPath = Ok content ->
  JSON_parse h content = Ok (JObj fields) ->
  lookup_field "InstallationList" fields = JArr (JObj <$> entries) ->
  mapM manifest_entry
    (filter (fun entry =>
               LauncherManifest.is_engine_app (lookup_field "AppName" entry) = true)
            entries) = Some pushed ->
  LauncherManifest.read_manifest h manifestPath = pushed.
Proof.
  intros Hexists Hread Hparse Hlist Hall.
  unfold LauncherManifest.read_manifest, LauncherManifest.installations_of.
  rewrite Hexists, Hread. simpl. rewrite Hparse. simpl. rewrite Hlist.
  by apply installation_loop_objects.
Qed.

(** X15: a [null] in [InstallationList] ends the reading of that
    manifest: the entries before it are pushed as usual, those after it
    are never looked at. *)
Theorem installation_loop_stops_at_null pre post :
  Forall readable pre ->
  LauncherManifest.installation_loop (pre ++ JNull :: post)
  = LauncherManifest.installation_loop pre.
Proof.
  induction 1 as [|installation pre Hread _ IH]; [done|].
  simpl. destruct (LauncherManifest.visit installation) as [[pushed|]|];
    [by rewrite IH|done|done].
Qed.

(** The sample manifest: of its three entries the two engines are pushed,
    the second under a display name made of its version. *)
Lemma read_manifest_filters_witness :
  LauncherManifest.read_manifest
    (Windows.files (JObj <$> Windows.launcher_entries)) Windows.manifest_path
  = [ {| LauncherManifest.pushed_path := JStr "C:/Program Files/Epic Games/UE_5.3";
         LauncherManifest.pushed_associationId := "UE_5";
         LauncherManifest.pushed_displayName := JStr "UE 5.3.2-29314046";
         LauncherManifest.pushed_installedDate := JUndefined |};
      {| LauncherManifest.pushed_path := JStr "c:/epic/source";
         LauncherManifest.pushed_associationId := "UE_4";
         LauncherManifest.pushed_displayName := JStr "Unreal Engine 4.27";
         LauncherManifest.pushed_installedDate := JStr "2023-01-15" |} ].
Proof.
  apply (read_manifest_filters (Windows.files (JObj <$> Windows.launcher_entries))
           Windows.manifest_path "manifest"
           [("InstallationList", JArr (JObj <$> Windows.launcher_entries))]
           Windows.launcher_entries); reflexivity.
Defined.

Lemma installation_loop_stops_at_null_witness :
  LauncherManifest.installation_loop
    ((JObj <$> Windows.launcher_entries)
     ++ JNull :: [JObj [("AppName", JStr "UE_5")]])
  = LauncherManifest.installation_loop (JObj <$> Windows.launcher_entries).
Proof.
  apply (installation_loop_stops_at_null (JObj <$> Windows.launcher_entries)
           [JObj [("AppName", JStr "UE_5")]]).
  repeat constructor; discriminate.
Defined.

(** What the probes find on the sample machine, and what is resolved. *)
Example windows_probe_results :
  (fun e => (path e, associationId e, displayName e)) <$> probe_results Windows.machine
  = [ (JStr "C:/Epic/Source", "{1234-ABCD}", "UE Engine {1234-ABCD}");
      (JStr "D:/Engines/UE_5.4", "{5678-EF00}", "UE Engine {5678-EF00}");
      (JStr "C:/Program Files/Epic Games/UE_5.3", "UE_5", "UE 5.3.2-29314046");
      (JStr "c:/epic/source", "UE_4", "Unreal Engine 4.27") ].
Proof. vm_compute. reflexivity. Qed.

Example windows_resolution :
  (fun e => (associationId e, displayName e)) <$> engine (resolveEngine Windows.machine None)
  = Some ("{5678-EF00}", "UE 4").
Proof. vm_compute. reflexivity. Qed.

(** ** The registry probe *)

Section Registry.
Import Text RegistryOutput.

Lemma span_until_spec stop s :
  forall taken rest,
    span_until stop s = (taken, rest) ->
    s = taken +:+ rest
    /\ string_forallb (fun c => negb (Ascii.eqb c stop)) taken = true.
Proof.
  induction s as [|c r IH]; simpl; intros taken rest.
  - intros [= <- <-]. done.
  - destruct (Ascii.eqb c stop) eqn:Hc.
    + intros [= <- <-]. done.
    + destruct (span_until stop r) as [t' r'].
      intros [= <- <-]. destruct (IH t' r' eq_refl) as [-> Hall].
      split; [done|]. simpl. by rewrite Hc, Hall.
Qed.

Lemma guid_here_spec s g rest :
  guid_here s = Some (g, rest) ->
  g <> EmptyString
  /\ string_forallb (fun c => negb (Ascii.eqb c "}")) g = true.
Proof.
  unfold guid_here. destruct s as [|c r]; [discriminate|].
  destruct (Ascii.eqb c "{"); [|discriminate].
  destruct (span_until "}" r) as [taken rest'] eqn:Hspan.
  destruct taken as [|g0 g']; [discriminate|].
  destruct rest' as [|c' rest'']; [discriminate|].
  intros [= <- <-]. split; [done|].
  by destruct (span_until_spec _ _ _ _ Hspan) as [_ Hall].
Qed.

Lemma leftmost_somewhere {R : Type} (here : string -> option R) s r :
  leftmost here s = Some r -> exists suffix, here suffix = Some r.
Proof.
  induction s as [|c s' IH]; simpl.
  - destruct (here EmptyString) eqn:Hh; [|discriminate].
    intros [= <-]. by eexists.
  - destruct (here (String c s')) eqn:Hh.
    + intros [= <-]. by eexists.
    + apply IH.
Qed.

Lemma parse_line_shaped line e :
  parse_line line = Some e -> registry_shaped e.
Proof.
  unfold parse_line.
  destruct (leftmost full_here (trim line)) as [[g v]|] eqn:Hfull.
  - intros [= <-].
    apply leftmost_somewhere in Hfull as [suffix Hfull].
    unfold full_here in Hfull.
    destruct (guid_here suffix) as [[g' rest]|] eqn:Hguid; [|discriminate].
    destruct (guid_here_spec _ _ _ Hguid) as [Hne Hall].
    repeat case_match; try discriminate. injection Hfull as <- <-.
    eexists _, _. split; [exact Hne|]. split; [exact Hall|]. reflexivity.
  - destruct (guid_here (trim line)) as [[g rest]|] eqn:Hguid; [|discriminate].
    destruct (guid_here_spec _ _ _ Hguid) as [Hne Hall].
    destruct (leftmost reg_sz_here (trim line)) as [v|]; [|discriminate].
    intros [= <-]. by exists g, (trim v).
Qed.

Lemma omap_length {A B : Type} (f : A -> option B) (l : list A) :
  (length (omap f l) <= length l)%nat.
Proof.
  induction l as [|x l IH]; [done|].
  cbn [omap list_omap length]. fold (omap f l).
  destruct (f x); simpl; lia.
Qed.

End Registry.

Lemma registry_probe_shaped query :
  Forall registry_shaped (Probe.getEnginesFromRegistry query).
Proof.
  destruct query as [stdout|msg]; simpl; [|constructor].
  apply Forall_forall. intros e He.
  apply list_elem_of_omap in He as (line & _ & Hline).
  by eapply parse_line_shaped.
Qed.

(** X16: whatever the query prints, every installation the registry probe
    returns has the form described by [registry_shaped], and there is at
    most one for each line of the output; a failed query gives none. *)
Theorem getEnginesFromRegistry_shape query :
  Forall registry_shaped (Probe.getEnginesFromRegistry query)
  /\ (forall stdout, query = Ok stdout ->
        (length (Probe.getEnginesFromRegistry query)
         <= length (Text.split_on "010" stdout))%nat)
  /\ (forall msg, query = Throw msg -> Probe.getEnginesFromRegistry query = []).
Proof.
  split; [|split].
  - apply registry_probe_shaped.
  - intros stdout ->. simpl. apply omap_length.
  - by intros msg ->.
Qed.

(** ** When discovery fails *)

Lemma registry_shaped_string_path e : registry_shaped e -> string_path e.
Proof. intros (g & p & _ & _ & ->). by eexists. Qed.

Lemma first_without_string_path l :
  ~ Forall string_path l ->
  exists pre e post,
    l = pre ++ e :: post /\ Forall string_path pre /\ ~ string_path e.
Proof.
  induction l as [|x l IH]; intros Hnot.
  - by destruct Hnot.
  - destruct (decide (string_path x)) as [Hx|Hx].
    + destruct IH as (pre & e & post & -> & Hpre & He).
      { intros Hl. apply Hnot. by constructor. }
      exists (x :: pre), e, post. split; [done|]. split; [by constructor|done].
    + exists [], x, l. split; [done|]. split; [constructor|done].
Qed.

Lemma typed_path p e :
  LauncherManifest.typed p = Some e -> path e = LauncherManifest.pushed_path p.
Proof.
  unfold LauncherManifest.typed. repeat case_match; try discriminate;
    by intros [= <-].
Qed.

Lemma typed_string_paths pushed installations :
  mapM LauncherManifest.typed pushed = Some installations ->
  Forall string_path installations <-> Forall string_location pushed.
Proof.
  intros Htyped%mapM_Some_1. split; intros Hall.
  - eapply Forall2_Forall_l; [exact Htyped|].
    eapply Forall_impl; [exact Hall|]. simpl.
    intros e [s Hs] p Hp. exists s. by rewrite <- (typed_path p e Hp).
  - eapply Forall2_Forall_r; [exact Htyped|].
    eapply Forall_impl; [exact Hall|]. simpl.
    intros p [s Hs] e He. exists s. by rewrite (typed_path p e He).
Qed.

(** X17: on a host whose probe fields are what the probes compute, the
    launcher's installations being read at their declared type (each has a
    string for a display name and a string or nothing for an install
    date), discovery throws exactly when the host is Windows and some
    installation pushed by the launcher probe has an [InstallLocation]
    that is not a string; the exception is the TypeError of
    [path.normalize] for the first such path, and it becomes the error of
    the resolution. *)
Theorem discovery_error_iff_launcher_location h env query pp :
  probes_of h env query ->
  ((exists msg, findEngineInstallations h = Throw msg)
   <-> Platform_isWindows h = true
       /\ ~ Forall string_location (Probe.getEnginesFromLauncher h env))
  /\ (forall pre e post,
        Platform_isWindows h = true ->
        getEnginesFromLauncher h = pre ++ e :: post ->
        Forall string_path pre -> ~ string_path e ->
        findEngineInstallations h = Throw (path_type_error h (path e))
        /\ error (resolveEngine h pp) = Some (path_type_error h (path e))).
Proof.
  intros (Hreg & Hlaunch & Henv).
  pose proof (typed_string_paths _ _ Hlaunch) as Hlocations.
  assert (Forall string_path (getEnginesFromRegistry h)) as Hregistry.
  { rewrite Hreg.
    eapply Forall_impl; [apply registry_probe_shaped|].
    apply registry_shaped_string_path. }
  assert (Forall string_path
            match getEngineFromEnvironment h with
            | Some envEngine => [envEngine]
            | None => []
            end) as Henvironment.
  { rewrite Henv.
    destruct (Probe.getEngineFromEnvironment h env) as [e|] eqn:Hprobe;
      [|constructor].
    destruct (environment_loop_shape _ _ _ _ Hprobe) as (envVar & p & _ & ->).
    repeat constructor. by eexists. }
  assert (forall pre e post,
            Platform_isWindows h = true ->
            getEnginesFromLauncher h = pre ++ e :: post ->
            Forall string_path pre -> ~ string_path e ->
            findEngineInstallations h = Throw (path_type_error h (path e)))
    as Hthrows.
  { intros pre e post Hwin Hsplit Hpre He.
    apply (findEngineInstallations_throws h (getEnginesFromRegistry h ++ pre) e
             (post ++ match getEngineFromEnvironment h with
                      | Some envEngine => [envEngine]
                      | None => []
                      end)).
    - unfold probe_results. rewrite Hwin, Hsplit.
      by rewrite <- !app_assoc.
    - by apply Forall_app.
    - done. }
  split.
  - split.
    + intros [msg Hthrow].
      destruct (Platform_isWindows h) eqn:Hwin.
      * split; [done|]. intros Hlauncher%Hlocations.
        destruct (findEngineInstallations_returns h) as (unique & _ & Hfind).
        { unfold probe_results. rewrite Hwin.
          apply Forall_app. split; [by apply Forall_app|done]. }
        congruence.
      * exfalso.
        destruct (findEngineInstallations_returns h) as (unique & _ & Hfind).
        { unfold probe_results. by rewrite Hwin. }
        congruence.
    + intros [Hwin Hlauncher].
      assert (~ Forall string_path (getEnginesFromLauncher h)) as Hnot
        by (by rewrite Hlocations).
      destruct (first_without_string_path _ Hnot)
        as (pre & e & post & Hsplit & Hpre & He).
      eexists. by apply (Hthrows pre e post).
  - intros pre e post Hwin Hsplit Hpre He.
    pose proof (Hthrows pre e post Hwin Hsplit Hpre He) as Hthrow.
    split; [done|].
    pose proof (resolveEngine_cases h pp) as Hcases.
    rewrite Hthrow in Hcases. by rewrite Hcases.
Qed.

(** The sample machine with a launcher entry that has no location. *)
Lemma discovery_error_iff_launcher_location_witness :
  ((exists msg, findEngineInstallations Windows.broken_machine = Throw msg)
   <-> Platform_isWindows Windows.broken_machine = true
       /\ ~ Forall string_location
             (Probe.getEnginesFromLauncher Windows.broken_machine Windows.env))
  /\ (forall pre e post,
        Platform_isWindows Windows.broken_machine = true ->
        getEnginesFromLauncher Windows.broken_machine = pre ++ e :: post ->
        Forall string_path pre -> ~ string_path e ->
        findEngineInstallations Windows.broken_machine
        = Throw (path_type_error Windows.broken_machine (path e))
        /\ error (resolveEngine Windows.broken_machine None)
           = Some (path_type_error Windows.broken_machine (path e))).
Proof.
  apply (discovery_error_iff_launcher_location Windows.broken_machine
           Windows.env (Ok Windows.reg_output) None).
  repeat split; vm_compute; reflexivity.
Defined.

Example broken_machine_error :
  error (resolveEngine Windows.broken_machine None)
  = Some "The path argument must be of type string. Received undefined".
Proof. vm_compute. reflexivity. Qed.

(** ** A well-formed registry line *)

Section RegistryLine.
Import Text RegistryOutput.

Lemma white_space_length_app s x n :
  white_space_length s = S n -> white_space_length (s +:+ x) = S n.
Proof.
  destruct s as [|c1 [|c2 [|c3 r3]]];
    rewrite ?append_cons, ?append_nil; unfold white_space_length;
    repeat match goal with
           | |- context [if ?b then _ else _] => destruct b
           end; intros Hlen; first [discriminate | exact Hlen].
Qed.

(** One white space character off the front of a string that is white
    space throughout, and what the scans do with it. *)
Lemma white_step s :
  s <> EmptyString -> all_white_space s = true ->
  exists r,
    all_white_space r = true
    /\ (String.length r < String.length s)%nat
    /\ forall x,
         after_white_space (s +:+ x) = Some (r +:+ x)
         /\ trimStart (s +:+ x) = trimStart (r +:+ x)
         /\ value_after_space (s +:+ x)
            = match value_after_space (r +:+ x) with
              | Some v => Some v
              | None => rest_of_line (s +:+ x)
              end.
Proof.
  destruct s as [|c1 r1]; [done|]. intros _ Hall.
  cbn [all_white_space] in Hall.
  destruct (white_space_length (String c1 r1)) as [|[|[|[|n]]]] eqn:Hlen.
  - by destruct r1.
  - exists r1. split; [done|]. split; [simpl; lia|]. intros x.
    pose proof (white_space_length_app _ x _ Hlen) as Hlen'.
    rewrite append_cons in *.
    unfold after_white_space. cbn [trimStart value_after_space].
    rewrite Hlen'. done.
  - destruct r1 as [|c2 r2]; [discriminate|].
    exists r2. split; [done|]. split; [simpl; lia|]. intros x.
    pose proof (white_space_length_app _ x _ Hlen) as Hlen'.
    rewrite !append_cons in *.
    unfold after_white_space. cbn [trimStart value_after_space].
    rewrite Hlen'. done.
  - destruct r1 as [|c2 [|c3 r3]]; try discriminate.
    exists r3. split; [done|]. split; [simpl; lia|]. intros x.
    pose proof (white_space_length_app _ x _ Hlen) as Hlen'.
    rewrite !append_cons in *.
    unfold after_white_space. cbn [trimStart value_after_space].
    rewrite Hlen'. done.
  - by destruct r1 as [|c2 [|c3 r3]].
Qed.

Lemma trimStart_plain x : white_space_length x = 0%nat -> trimStart x = x.
Proof.
  destruct x as [|c r]; [done|]. intros Hlen.
  cbn [trimStart]. rewrite Hlen. by destruct r.
Qed.

Lemma trimStart_white n : forall s x,
  (String.length s <= n)%nat ->
  all_white_space s = true -> white_space_length x = 0%nat ->
  trimStart (s +:+ x) = x.
Proof.
  induction n as [|n IH]; intros s x Hn Hall Hx.
  - destruct s; [|simpl in Hn; lia]. by apply trimStart_plain.
  - destruct (decide (s = EmptyString)) as [->|Hne]; [by apply trimStart_plain|].
    destruct (white_step s Hne Hall) as (r & Hr & Hshort & Hstep).
    destruct (Hstep x) as (_ & -> & _). apply IH; [lia|done|done].
Qed.

Lemma value_after_space_white n : forall s p,
  (String.length s <= n)%nat ->
  all_white_space s = true ->
  p <> EmptyString -> white_space_length p = 0%nat ->
  has_line_terminator p = false ->
  value_after_space (s +:+ p) = Some p.
Proof.
  induction n as [|n IH]; intros s p Hn Hall Hp Hstart Hline.
  - destruct s; [|simpl in Hn; lia]. rewrite append_nil.
    destruct p as [|c r]; [done|].
    cbn [value_after_space]. rewrite Hstart.
    unfold rest_of_line. rewrite Hline. by destruct r.
  - destruct (decide (s = EmptyString)) as [->|Hne].
    { apply (IH EmptyString); [simpl; lia|done..]. }
    destruct (white_step s Hne Hall) as (r & Hr & Hshort & Hstep).
    destruct (Hstep p) as (_ & _ & ->).
    rewrite (IH r p); [done|lia|done..].
Qed.

Lemma value_match_white s p :
  s <> EmptyString -> all_white_space s = true ->
  p <> EmptyString -> white_space_length p = 0%nat ->
  has_line_terminator p = false ->
  value_match (s +:+ p) = Some p.
Proof.
  intros Hne Hall Hp Hstart Hline.
  destruct (white_step s Hne Hall) as (r & Hr & _ & Hstep).
  destruct (Hstep p) as (Hafter & _ & _).
  unfold value_match. rewrite Hafter.
  by apply (value_after_space_white (String.length r)).
Qed.

Lemma span_until_brace g rest :
  string_forallb (fun c => negb (Ascii.eqb c "}")) g = true ->
  span_until "}" (g +:+ String "}" rest) = (g, String "}" rest).
Proof.
  induction g as [|c g IH]; [done|].
  cbn [string_forallb]. intros [Hc Hg]%andb_true_iff.
  rewrite append_cons. cbn [span_until].
  apply negb_true_iff in Hc. by rewrite Hc, IH.
Qed.

Lemma leftmost_here {R : Type} (here : string -> option R) s r :
  here s = Some r -> leftmost here s = Some r.
Proof. intros Hh. destruct s; simpl; by rewrite Hh. Qed.

End RegistryLine.

(** X18: a line that, once trimmed, reads as a guid in braces, white
    space, [REG_SZ], white space and a value gives the one installation
    with that guid, braces included, and the trimmed value for a path.
    The guid is not empty and holds no closing brace; the value starts
    with something other than white space and holds no line terminator. *)
Theorem parse_line_formatted line g sp1 sp2 p :
  Text.trim line = "{" +:+ g +:+ "}" +:+ sp1 +:+ "REG_SZ" +:+ sp2 +:+ p ->
  g <> EmptyString ->
  string_forallb (fun c => negb (Ascii.eqb c "}")) g = true ->
  sp1 <> EmptyString -> Text.all_white_space sp1 = true ->
  sp2 <> EmptyString -> Text.all_white_space sp2 = true ->
  p <> EmptyString -> Text.white_space_length p = 0%nat ->
  Text.has_line_terminator p = false ->
  RegistryOutput.parse_line line
  = Some (RegistryOutput.registry_installation ("{" +:+ g +:+ "}") (Text.trim p)).
Proof.
  intros Htrim Hg Hbrace Hsp1 Hws1 Hsp2 Hws2 Hp Hstart Hline.
  unfold RegistryOutput.parse_line. rewrite Htrim.
  assert (RegistryOutput.full_here
            ("{" +:+ g +:+ "}" +:+ sp1 +:+ "REG_SZ" +:+ sp2 +:+ p)
          = Some (g, p)) as Hfull.
  { unfold RegistryOutput.full_here.
    assert (RegistryOutput.guid_here
              ("{" +:+ g +:+ "}" +:+ sp1 +:+ "REG_SZ" +:+ sp2 +:+ p)
            = Some (g, sp1 +:+ "REG_SZ" +:+ sp2 +:+ p)) as ->.
    { change ("{" +:+ g +:+ "}" +:+ sp1 +:+ "REG_SZ" +:+ sp2 +:+ p)
        with (String "{" (g +:+ String "}" (sp1 +:+ "REG_SZ" +:+ sp2 +:+ p))).
      unfold RegistryOutput.guid_here. simpl Ascii.eqb. cbv iota.
      rewrite span_until_brace by done. by destruct g. }
    destruct (white_step sp1 Hsp1 Hws1) as (r & _ & _ & Hstep).
    destruct (Hstep ("REG_SZ" +:+ sp2 +:+ p)) as (-> & _ & _).
    rewrite (trimStart_white (String.length sp1)) by done.
    unfold RegistryOutput.reg_sz_here.
    change (Text.strip_prefix "REG_SZ" ("REG_SZ" +:+ sp2 +:+ p))
      with (Some (sp2 +:+ p)).
    cbv iota beta. by rewrite value_match_white. }
  by rewrite (leftmost_here _ _ _ Hfull).
Qed.

Lemma parse_line_formatted_witness :
  RegistryOutput.parse_line
    ("    {1234-ABCD}    REG_SZ    C:/Epic/UE Source" +:+ Windows.crlf)
  = Some (RegistryOutput.registry_installation ("{" +:+ "1234-ABCD" +:+ "}")
            (Text.trim "C:/Epic/UE Source")).
Proof.
  apply (parse_line_formatted
           ("    {1234-ABCD}    REG_SZ    C:/Epic/UE Source" +:+ Windows.crlf)
           "1234-ABCD" "    " "    " "C:/Epic/UE Source");
    first [ reflexivity | discriminate ].
Defined.

(** ** More on deduplication *)

Lemma dedup_loop_distinct h l : forall seen unique,
  Forall string_path l ->
  NoDup (normalizedPath h <$> l) ->
  (forall e, e ∈ l -> normalizedPath h e ∉ seen) ->
  dedup_loop h l seen unique = Ok (unique ++ l).
Proof.
  induction l as [|x l IH]; intros seen unique Hall Hnd Hfresh.
  - simpl. by rewrite app_nil_r.
  - apply Forall_cons in Hall as [Hx Hl].
    rewrite fmap_cons in Hnd. apply NoDup_cons in Hnd as [Hnew Hnd].
    rewrite dedup_loop_step by done.
    rewrite decide_False by (apply Hfresh; by left).
    rewrite IH; [by rewrite <- app_assoc|done|done|].
    intros e He. apply not_elem_of_union. split.
    + apply not_elem_of_singleton. intros Heq. apply Hnew.
      rewrite <- Heq. by apply list_elem_of_fmap_2.
    + apply Hfresh. by right.
Qed.

(** X19: a list whose installations have pairwise different normalized
    paths is returned as it is, so deduplicating a second time changes
    nothing; the result is never longer than the input. *)
Theorem removeDuplicateEngines_idempotent h l unique :
  removeDuplicateEngines h l = Ok unique ->
  removeDuplicateEngines h unique = Ok unique
  /\ (length unique <= length l)%nat.
Proof.
  intros Hrun.
  assert (Forall string_path l) as Hall.
  { destruct (decide (Forall string_path l)) as [|Hnot]; [done|].
    destruct (first_without_string_path l Hnot) as (pre & e & post & -> & Hpre & He).
    unfold removeDuplicateEngines in Hrun.
    by rewrite dedup_loop_throws in Hrun. }
  destruct (dedup_loop_spec h l ∅ [] Hall)
    as (kept & Hkept & Hsub & Hnd & _).
  unfold removeDuplicateEngines in Hrun. rewrite Hkept in Hrun.
  injection Hrun as <-. simpl.
  split; [|by apply sublist_length].
  unfold removeDuplicateEngines.
  rewrite dedup_loop_distinct; [done| |done|].
  - eapply Forall_forall. intros e He.
    eapply Forall_forall in Hall; [exact Hall|].
    by eapply elem_of_sublist.
  - intros e _. apply not_elem_of_empty.
Qed.

Lemma removeDuplicateEngines_idempotent_witness :
  removeDuplicateEngines (Sample.host None [] [] []) [Sample.guid1; Sample.guid2]
  = Ok [Sample.guid1; Sample.guid2]
  /\ (length [Sample.guid1; Sample.guid2]
      <= length [Sample.guid1; Sample.launcher5; Sample.guid2])%nat.
Proof.
  apply (removeDuplicateEngines_idempotent (Sample.host None [] [] [])
           [Sample.guid1; Sample.launcher5; Sample.guid2]
           [Sample.guid1; Sample.guid2]).
  vm_compute. reflexivity.
Defined.

Lemma first_with_key {A K : Type} `{EqDecision K} (f : A -> K) (l : list A) x :
  x ∈ l ->
  exists pre y post,
    l = pre ++ y :: post /\ f y = f x /\ f x ∉ f <$> pre.
Proof.
  induction l as [|z l IH]; intros Hx; [by apply elem_of_nil in Hx|].
  destruct (decide (f z = f x)) as [Heq|Hne].
  - exists [], z, l. split; [done|]. split; [done|]. apply not_elem_of_nil.
  - apply elem_of_cons in Hx as [->|Hx]; [done|].
    destruct (IH Hx) as (pre & y & post & -> & Hy & Hpre).
    exists (z :: pre), y, post. split; [done|]. split; [done|].
    rewrite fmap_cons. apply not_elem_of_cons. split; [congruence|done].
Qed.

(** X20: the registry has priority: on Windows, for every installation
    the registry probe returned, the deduplicated list holds a registry
    installation with the same normalized path, whatever the launcher and
    the environment report for that path. *)
Theorem registry_has_priority h unique r :
  Platform_isWindows h = true ->
  removeDuplicateEngines h (probe_results h) = Ok unique ->
  r ∈ getEnginesFromRegistry h ->
  exists r',
    r' ∈ getEnginesFromRegistry h
    /\ r' ∈ unique
    /\ normalizedPath h r' = normalizedPath h r.
Proof.
  intros Hwin Hrun Hr.
  assert (Forall string_path (probe_results h)) as Hall.
  { destruct (decide (Forall string_path (probe_results h))) as [|Hnot]; [done|].
    destruct (first_without_string_path _ Hnot) as (pre & e & post & Heq & Hpre & He).
    unfold removeDuplicateEngines in Hrun.
    by rewrite Heq, dedup_loop_throws in Hrun. }
  destruct (dedup_loop_spec h (probe_results h) ∅ [] Hall)
    as (kept & Hkept & _ & _ & _ & _ & Hfirst & _).
  unfold removeDuplicateEngines in Hrun. rewrite Hkept in Hrun.
  injection Hrun as <-. simpl.
  destruct (first_with_key (normalizedPath h) _ r Hr)
    as (pre & r' & post & Hsplit & Hkey & Hpre).
  exists r'. split; [|split; [|done]].
  - rewrite Hsplit. apply elem_of_app. right. by left.
  - apply (Hfirst pre r'
             (post ++ getEnginesFromLauncher h
                   ++ match getEngineFromEnvironment h with
                      | Some envEngine => [envEngine]
                      | None => []
                      end)).
    + unfold probe_results. rewrite Hwin, Hsplit. by rewrite <- !app_assoc.
    + apply not_elem_of_empty.
    + by rewrite Hkey.
Qed.

Lemma registry_has_priority_witness :
  exists r',
    r' ∈ getEnginesFromRegistry Windows.machine
    /\ r' ∈ [ RegistryOutput.registry_installation "{1234-ABCD}" "C:/Epic/Source";
              RegistryOutput.registry_installation "{5678-EF00}" "D:/Engines/UE_5.4";
              Sample.installation (JStr "C:/Program Files/Epic Games/UE_5.3")
                "UE_5" "UE 5.3.2-29314046" ]
    /\ normalizedPath Windows.machine r'
       = normalizedPath Windows.machine
           (RegistryOutput.registry_installation "{1234-ABCD}" "C:/Epic/Source").
Proof.
  apply (registry_has_priority Windows.machine
           [ RegistryOutput.registry_installation "{1234-ABCD}" "C:/Epic/Source";
             RegistryOutput.registry_installation "{5678-EF00}" "D:/Engines/UE_5.4";
             Sample.installation (JStr "C:/Program Files/Epic Games/UE_5.3")
               "UE_5" "UE 5.3.2-29314046" ]
           (RegistryOutput.registry_installation "{1234-ABCD}" "C:/Epic/Source")).
  - reflexivity.
  - vm_compute. reflexivity.
  - vm_compute. apply elem_of_cons. by left.
Defined.
